(** * The block downloader of go-seele: session coordinator

    A shallow embedding of [seele/download/downloader.go] and the properties
    of its session life cycle, ancestor discovery, worker spawning, block
    processing and peer table.

    Conventions of the embedding.
    - [uint64] values are integers in [0, 2^64); arithmetic on them wraps
      ([u64]).  Go's [int] is taken at its 64-bit width ([int]).
    - [*big.Int] total difficulties are integers.
    - A [common.Hash] (a 32-byte array) is the integer it encodes.
    - Go [error] values are compared by identity; the package's own error
      variables are constructors of [error], everything produced by a
      collaborator (transport, codec, store, chain writer, task manager)
      is an [errExternal].
    - The collaborators whose code lives outside this file (the chain, the
      task manager, the remote peers) are section variables or explicit
      scripts of what they answer.  [DeliverMsg] only hands a message to
      a [peerConn], whose mailboxes are on that side; what a wait on the
      connection then yields is what the scripts give. *)

From Stdlib Require Import ZArith Lia.
From stdpp Require Import base gmap strings list.

Local Open Scope Z_scope.

(** ** Machine integers *)

Definition u64 (z : Z) : Z := z mod 2 ^ 64.
Definition int (z : Z) : Z := (z + 2 ^ 63) mod 2 ^ 64 - 2 ^ 63.

(** ** Constants *)

Definition GetBlockHeadersMsg : Z := 8.
Definition BlockHeadersMsg : Z := 9.
Definition GetBlocksMsg : Z := 10.
Definition BlocksPreMsg : Z := 11.
Definition BlocksMsg : Z := 12.

Definition MaxBlockFetch : Z := 128.
Definition MaxHeaderFetch : Z := 256.
Definition MaxForkAncestry : Z := 90000.
Definition MaxMessageLength : Z := 8 * 1024 * 1024.

Definition statusNone : Z := 1.
Definition statusPreparing : Z := 2.
Definition statusFetching : Z := 3.
Definition statusCleaning : Z := 4.

(** ** Errors *)

Inductive error : Type :=
  | errHashNotMatch
  | errInvalidAncestor
  | errInvalidPacketRecved
  | errIsSynchronising
  | errMaxForkAncestor
  | errPeerNotFound
  | errSyncErr
  | ErrBlockAlreadyExist          (* core.ErrBlockAlreadyExist *)
  | errExternal (msg : string).   (* any error value made by a collaborator *)

Global Instance error_eq_dec : EqDecision error.
Proof. solve_decision. Defined.

Inductive result (A : Type) : Type :=
  | Ok (a : A)
  | Err (e : error).
Arguments Ok {A} a.
Arguments Err {A} e.

(** ** Headers, blocks, peers *)

Definition Hash : Type := Z.
Definition EmptyHash : Hash := 0.

(** The downloader reads a header's [Height] and its content hash only;
    [hdrHash] is the value of the header's [Hash()] method. *)
Record BlockHeader : Type := mkHeader {
  PreviousBlockHash : Hash;
  Height : Z;
  hdrHash : Hash;
}.

Record Block : Type := mkBlock {
  HeaderHash : Hash;
  Header : BlockHeader;
}.

(** The [Peer] interface: [Head()] gives [(head hash, total difficulty)];
    the two request methods are fire-and-forget and are logged in the
    state ([sent]). *)
Record Peer : Type := mkPeer {
  headHash : Hash;
  headTD : Z;
}.

Definition Head (p : Peer) : Hash * Z := (headHash p, headTD p).

(** A [*peerConn]: [connId] stands for the identity of the allocation. *)
Record peerConn : Type := mkPeerConn {
  connId : nat;
  peerID : string;
  peer : Peer;
}.

Inductive request : Type :=
  | ReqHeaders (hash : Hash) (num : Z) (amount : Z) (reverse : bool)
  | ReqBlocks (hash : Hash) (num : Z) (amount : Z).

(** What [conn.waitMsg(BlockHeadersMsg, d.cancelCh)] followed by
    [common.Deserialize] yields: the wait fails (cancellation, peer
    gone), the payload does not decode, or a list of headers. *)
Inductive response : Type :=
  | WaitErr (e : error)
  | DeserializeErr (e : error)
  | Headers (hs : list BlockHeader).

Inductive Event : Type :=
  | DownloaderStartEvent
  | DownloaderDoneEvent
  | DownloaderFailedEvent.

(** A [chan struct{}] that is only ever closed: nil, open or closed. *)
Inductive chan : Type := ChNil | ChOpen | ChClosed.

Global Instance chan_eq_dec : EqDecision chan.
Proof. solve_decision. Defined.

(** A [masterHeadInfo] of the task manager, by the two fields the
    downloader touches. *)
Record masterHeadInfo : Type := mkHeadInfo {
  block : Block;
  status : Z;
}.

(** ** What a worker meets in one turn of its loop

    The outcome of every call that leaves the goroutine: the two request
    methods of the peer, the waits on the connection (a failed wait and
    a payload that does not decode both end the worker, so the block
    messages carry one [Err] for either), and the [select] of the idle
    wait.  [envCancel] says that somebody called [Cancel] since the
    previous turn. *)
Inductive selected : Type := SelCancel | SelQuit | SelIdle.

Record turn : Type := mkTurn {
  envCancel : bool;
  reqHeadersErr : option error;
  headersMsg : response;
  reqBlocksErr : option error;
  blocksPreMsg : result (list Z);
  blocksMsg : result (list Block);
  idleSelect : selected;
}.

Inductive exitReason : Type :=
  | ExitDone
  | ExitError
  | ExitCancelled
  | ExitPeerQuit.

(** A [p2p.Message], by its code and payload. *)
Record Message : Type := mkMessage {
  Code : Z;
  Payload : list Byte.byte;
}.

Section Downloader.

(** The chain ([core.Blockchain]) and its store. *)
Context {Chain : Type}.
Variable CurrentBlock : Chain → Block.
Variable GetBlockHash : Chain → Z → result Hash.
Variable WriteBlock : Chain → Block → Chain * option error.

(** The task manager ([taskMgr], same package, another file). *)
Context {taskMgr : Type}.
Variable newTaskMgr : string → Z → Z → taskMgr.
Variable tm_close : taskMgr → taskMgr.
Variable isDone : taskMgr → bool.
Variable getReqHeaderInfo : taskMgr → peerConn → taskMgr * (Z * Z).
Variable getReqBlocks : taskMgr → peerConn → taskMgr * (Z * Z).
Variable deliverHeaderMsg : taskMgr → string → list BlockHeader → taskMgr * option error.
Variable deliverBlockPreMsg : taskMgr → string → list Z → taskMgr.
Variable deliverBlockMsg : taskMgr → string → list Block → taskMgr.
Variable onPeerQuit : taskMgr → string → taskMgr.
Variable taskStatusProcessed : Z.

(** What the goroutines started for a session leave behind once
    [sessionWG.Wait()] returns: the task manager they worked on, and
    whether [Cancel] was called meanwhile. *)
Variable awaitWorkers : taskMgr → list (peerConn * option taskMgr) → taskMgr * bool.

(** ** The downloader and its surroundings

    The first seven fields are those of the Go struct ([log] and [lock]
    carry no data).  The others record the effects on the outside:
    events fired on [event.BlockDownloaderEventManager], goroutines
    started with [go d.peerDownload(c, tm)], requests sent to peers,
    connections closed, and the allocation counter of [newPeerConn]. *)
Record Downloader : Type := mkDownloader {
  cancelCh : chan;
  masterPeer : string;
  peers : gmap string peerConn;
  syncStatus : Z;
  tm : option taskMgr;
  chain : Chain;
  sessionWG : Z;
  fired : list Event;
  spawned : list (peerConn * option taskMgr);
  sent : list (string * request);
  closedConns : list nat;
  nextConn : nat;
}.

Definition set_cancelCh (c : chan) (d : Downloader) : Downloader :=
  mkDownloader c (masterPeer d) (peers d) (syncStatus d) (tm d) (chain d)
    (sessionWG d) (fired d) (spawned d) (sent d) (closedConns d) (nextConn d).
Definition set_masterPeer (m : string) (d : Downloader) : Downloader :=
  mkDownloader (cancelCh d) m (peers d) (syncStatus d) (tm d) (chain d)
    (sessionWG d) (fired d) (spawned d) (sent d) (closedConns d) (nextConn d).
Definition set_peers (p : gmap string peerConn) (d : Downloader) : Downloader :=
  mkDownloader (cancelCh d) (masterPeer d) p (syncStatus d) (tm d) (chain d)
    (sessionWG d) (fired d) (spawned d) (sent d) (closedConns d) (nextConn d).
Definition set_syncStatus (st : Z) (d : Downloader) : Downloader :=
  mkDownloader (cancelCh d) (masterPeer d) (peers d) st (tm d) (chain d)
    (sessionWG d) (fired d) (spawned d) (sent d) (closedConns d) (nextConn d).
Definition set_tm (t : option taskMgr) (d : Downloader) : Downloader :=
  mkDownloader (cancelCh d) (masterPeer d) (peers d) (syncStatus d) t (chain d)
    (sessionWG d) (fired d) (spawned d) (sent d) (closedConns d) (nextConn d).
Definition set_chain (c : Chain) (d : Downloader) : Downloader :=
  mkDownloader (cancelCh d) (masterPeer d) (peers d) (syncStatus d) (tm d) c
    (sessionWG d) (fired d) (spawned d) (sent d) (closedConns d) (nextConn d).
Definition set_sessionWG (n : Z) (d : Downloader) : Downloader :=
  mkDownloader (cancelCh d) (masterPeer d) (peers d) (syncStatus d) (tm d) (chain d)
    n (fired d) (spawned d) (sent d) (closedConns d) (nextConn d).

(** [event.BlockDownloaderEventManager.Fire(e)] *)
Definition Fire (e : Event) (d : Downloader) : Downloader :=
  mkDownloader (cancelCh d) (masterPeer d) (peers d) (syncStatus d) (tm d) (chain d)
    (sessionWG d) (fired d ++ [e]) (spawned d) (sent d) (closedConns d) (nextConn d).

(** [d.sessionWG.Add(1); go d.peerDownload(c, t)] *)
Definition spawn (c : peerConn) (t : option taskMgr) (d : Downloader) : Downloader :=
  mkDownloader (cancelCh d) (masterPeer d) (peers d) (syncStatus d) (tm d) (chain d)
    (sessionWG d + 1) (fired d) (spawned d ++ [(c, t)]) (sent d) (closedConns d) (nextConn d).

(** A request handed to [conn.peer]. *)
Definition send (c : peerConn) (r : request) (d : Downloader) : Downloader :=
  mkDownloader (cancelCh d) (masterPeer d) (peers d) (syncStatus d) (tm d) (chain d)
    (sessionWG d) (fired d) (spawned d) (sent d ++ [(peerID c, r)]) (closedConns d) (nextConn d).

Definition set_sent (l : list (string * request)) (d : Downloader) : Downloader :=
  mkDownloader (cancelCh d) (masterPeer d) (peers d) (syncStatus d) (tm d) (chain d)
    (sessionWG d) (fired d) (spawned d) l (closedConns d) (nextConn d).

(** [peerConn.close()] *)
Definition closeConn (c : peerConn) (d : Downloader) : Downloader :=
  mkDownloader (cancelCh d) (masterPeer d) (peers d) (syncStatus d) (tm d) (chain d)
    (sessionWG d) (fired d) (spawned d) (sent d) (connId c :: closedConns d) (nextConn d).

(** [newPeerConn(peer, peerID)]: a fresh connection object. *)
Definition newPeerConn (p : Peer) (id : string) (d : Downloader) : peerConn * Downloader :=
  (mkPeerConn (nextConn d) id p,
   mkDownloader (cancelCh d) (masterPeer d) (peers d) (syncStatus d) (tm d) (chain d)
    (sessionWG d) (fired d) (spawned d) (sent d) (closedConns d) (S (nextConn d))).

(** [NewDownloader(chain)] *)
Definition NewDownloader (c : Chain) : Downloader :=
  mkDownloader ChNil "" ∅ statusNone None c 0 [] [] [] [] 0.

(** ** Cancel and Terminate *)

Definition Cancel (d : Downloader) : Downloader :=
  match cancelCh d with
  | ChNil => d
  | ChClosed => d
  | ChOpen => set_cancelCh ChClosed d
  end.

(** [Terminate]: [Cancel], then [d.sessionWG.Wait()]. *)
Definition Terminate (d : Downloader) : Downloader :=
  set_sessionWG 0 (Cancel d).

(** ** fetchHeight

    A function that waits for the peer takes the script of what the peer
    will answer, and gives back what is left of it; [None] is a wait
    that never returns (the script ran out). *)
Definition fetchHeight (conn : peerConn) (script : list response) (d : Downloader)
  : option (result BlockHeader * list response * Downloader) :=
  let '(head, _) := Head (peer conn) in
  let d := send conn (ReqHeaders head 0 1 false) d in
  match script with
  | [] => None
  | WaitErr e :: script => Some (Err e, script, d)
  | DeserializeErr e :: script => Some (Err e, script, d)
  | Headers headers :: script =>
      match headers with
      | [h] =>
          if decide (hdrHash h = head) then Some (Ok h, script, d)
          else Some (Err errHashNotMatch, script, d)
      | _ => Some (Err errInvalidPacketRecved, script, d)
      end
  end.

(** ** findCommonAncestorHeight *)

(** The inner loop over one batch: [None] when the batch holds no match
    and the outer loop goes on. *)
Fixpoint compareHeaders (c : Chain) (headers : list BlockHeader) : option (result Z) :=
  match headers with
  | [] => None
  | h :: headers =>
      let cmpHeight := Height h in
      match GetBlockHash c cmpHeight with
      | Err e => Some (Err e)
      | Ok localHash =>
          if decide (localHash = hdrHash h) then Some (Ok cmpHeight)
          else compareHeaders c headers
      end
  end.

Definition fetchCountOf (maxFetchAncestry cmpCount : Z) : Z :=
  if decide (MaxHeaderFetch ≤ int (maxFetchAncestry - cmpCount)) then MaxHeaderFetch
  else int (maxFetchAncestry - cmpCount).

(** The outer [for] loop, one peer answer per turn. *)
Fixpoint ancestorLoop (conn : peerConn) (top maxFetchAncestry cmpCount : Z)
    (script : list response) (d : Downloader)
  : option (result Z * list response * Downloader) :=
  let localTop := u64 (top - u64 cmpCount) in
  let fetchCount := fetchCountOf maxFetchAncestry cmpCount in
  if decide (fetchCount = 0) then Some (Err errMaxForkAncestor, script, d)
  else
    let d := send conn (ReqHeaders EmptyHash localTop fetchCount true) d in
    match script with
    | [] => None
    | WaitErr e :: script => Some (Err e, script, d)
    | DeserializeErr e :: script => Some (Err e, script, d)
    | Headers headers :: script =>
        if decide (length headers = 0%nat) then Some (Err errInvalidAncestor, script, d)
        else
          let cmpCount := int (cmpCount + Z.of_nat (length headers)) in
          match compareHeaders (chain d) headers with
          | Some (Ok cmpHeight) => Some (Ok cmpHeight, script, d)
          | Some (Err e) => Some (Err e, script, d)
          | None => ancestorLoop conn top maxFetchAncestry cmpCount script d
          end
    end.

Definition topOf (localHeight height : Z) : Z :=
  if decide (localHeight ≤ height) then localHeight else height.

Definition maxFetchAncestryOf (top : Z) : Z :=
  if decide (MaxForkAncestry ≤ top) then MaxForkAncestry else int (int top + 1).

Definition findCommonAncestorHeight (conn : peerConn) (height : Z)
    (script : list response) (d : Downloader)
  : option (result Z * list response * Downloader) :=
  let localHeight := Height (Header (CurrentBlock (chain d))) in
  let top := topOf localHeight height in
  if decide (top = 0) then Some (Ok top, script, d)
  else ancestorLoop conn top (maxFetchAncestryOf top) 0 script d.

(** ** doSynchronise *)

(** The [range d.peers] loop.  Go visits a map in no fixed order; the
    embedding takes the order of [map_to_list], and the properties below
    do not depend on it. *)
Fixpoint spawnWorkers (localTD : Z) (t : taskMgr) (cs : list (string * peerConn))
    (d : Downloader) : Downloader :=
  match cs with
  | [] => d
  | (_, c) :: cs =>
      let '(_, peerTD) := Head (peer c) in
      if decide (peerTD ≤ localTD) then spawnWorkers localTD t cs d
      else spawnWorkers localTD t cs (spawn c (Some t) d)
  end.

(** Lines 132-143: under the lock, enter [statusFetching] and start the
    workers. *)
Definition startFetching (localTD : Z) (t : taskMgr) (d : Downloader) : Downloader :=
  let d := set_syncStatus statusFetching d in
  spawnWorkers localTD t (map_to_list (peers d)) d.

(** The body of [doSynchronise] between the first [Fire] and the
    deferred one. *)
Definition doSynchroniseBody (conn : peerConn) (head : Hash) (td localTD : Z)
    (script : list response) (d : Downloader) : option (option error * Downloader) :=
  match fetchHeight conn script d with
  | None => None
  | Some (Err e, _, d) => Some (Some e, d)
  | Some (Ok latest, script, d) =>
      let height := Height latest in
      match findCommonAncestorHeight conn height script d with
      | None => None
      | Some (Err e, _, d) => Some (Some e, d)
      | Some (Ok ancestor, _, d) =>
          let t := newTaskMgr (masterPeer d) (u64 (ancestor + 1)) height in
          let d := set_tm (Some t) d in
          let d := startFetching localTD t d in
          (* d.sessionWG.Wait() *)
          let '(t, cancelled) := awaitWorkers t (spawned d) in
          let d := set_sessionWG 0 (if cancelled then Cancel d else d) in
          let d := set_syncStatus statusCleaning d in
          let t := tm_close t in
          let d := set_tm None d in
          if isDone t then Some (None, d) else Some (Some errSyncErr, d)
      end
  end.

Definition doSynchronise (conn : peerConn) (head : Hash) (td localTD : Z)
    (script : list response) (d : Downloader) : option (option error * Downloader) :=
  let d := Fire DownloaderStartEvent d in
  match doSynchroniseBody conn head td localTD script d with
  | None => None
  | Some (Some err, d) => Some (Some err, Fire DownloaderFailedEvent d)
  | Some (None, d) => Some (None, Fire DownloaderDoneEvent d)
  end.

(** ** Synchronise *)

Definition Synchronise (id : string) (head : Hash) (td localTD : Z)
    (script : list response) (d : Downloader) : option (option error * Downloader) :=
  if decide (syncStatus d ≠ statusNone) then Some (Some errIsSynchronising, d)
  else
    let d := set_syncStatus statusPreparing d in
    let d := set_cancelCh ChOpen d in
    let d := set_masterPeer id d in
    match peers d !! id with
    | None =>
        let d := set_cancelCh ChClosed d in
        let d := set_syncStatus statusNone d in
        Some (Some errPeerNotFound, d)
    | Some p =>
        match doSynchronise p head td localTD script d with
        | None => None
        | Some (err, d) =>
            let d := set_syncStatus statusNone d in
            let d := set_sessionWG 0 d in
            let d := set_cancelCh ChNil d in
            Some (err, d)
        end
    end.

(** ** The peer table *)

Definition RegisterPeer (id : string) (p : Peer) (d : Downloader) : Downloader :=
  let '(newConn, d) := newPeerConn p id d in
  let d := set_peers (<[id := newConn]> (peers d)) d in
  if decide (syncStatus d = statusFetching) then spawn newConn (tm d) d
  else d.

Definition UnRegisterPeer (id : string) (d : Downloader) : Downloader :=
  match peers d !! id with
  | Some c => set_peers (delete id (peers d)) (closeConn c d)
  | None => d
  end.

(** ** peerDownload *)

(** The header half of one turn: [None] is a [break] out of the loop,
    [Some b] goes on with [hasReqData = b]. *)
Definition headerTurn (conn : peerConn) (i : turn) (t : taskMgr) (d : Downloader)
  : option bool * taskMgr * Downloader :=
  let '(t, (startNo, amount)) := getReqHeaderInfo t conn in
  if decide (0 < amount) then
    let d := send conn (ReqHeaders EmptyHash startNo amount false) d in
    match reqHeadersErr i with
    | Some _ => (None, t, d)
    | None =>
        match headersMsg i with
        | WaitErr _ => (None, t, d)
        | DeserializeErr _ => (None, t, d)
        | Headers headers =>
            match deliverHeaderMsg t (peerID conn) headers with
            | (t, Some _) => (None, t, d)
            | (t, None) => (Some true, t, d)
            end
        end
    end
  else (Some false, t, d).

Definition blockTurn (conn : peerConn) (i : turn) (hasReqData : bool)
    (t : taskMgr) (d : Downloader) : option bool * taskMgr * Downloader :=
  let '(t, (startNo, amount)) := getReqBlocks t conn in
  if decide (0 < amount) then
    let d := send conn (ReqBlocks EmptyHash startNo amount) d in
    match reqBlocksErr i with
    | Some _ => (None, t, d)
    | None =>
        match blocksPreMsg i with
        | Err _ => (None, t, d)
        | Ok blockNums =>
            let t := deliverBlockPreMsg t (peerID conn) blockNums in
            match blocksMsg i with
            | Err _ => (None, t, d)
            | Ok blocks => (Some true, deliverBlockMsg t (peerID conn) blocks, d)
            end
        end
    end
  else (Some hasReqData, t, d).

(** The [outLoop] loop; [None] when the worker is still running after
    the last scripted turn. *)
Fixpoint downloadLoop (conn : peerConn) (script : list turn) (t : taskMgr)
    (d : Downloader) : option (exitReason * taskMgr * Downloader) :=
  if isDone t then Some (ExitDone, t, d)
  else
    match script with
    | [] => None
    | i :: script =>
        let d := if envCancel i then Cancel d else d in
        match headerTurn conn i t d with
        | (None, t, d) => Some (ExitError, t, d)
        | (Some hasReqData, t, d) =>
            match blockTurn conn i hasReqData t d with
            | (None, t, d) => Some (ExitError, t, d)
            | (Some true, t, d) => downloadLoop conn script t d
            | (Some false, t, d) =>
                match idleSelect i with
                | SelCancel => Some (ExitCancelled, t, d)
                | SelQuit => Some (ExitPeerQuit, t, d)
                | SelIdle => downloadLoop conn script t d
                end
            end
        end
    end.

Definition peerDownload (conn : peerConn) (t : taskMgr) (script : list turn)
    (d : Downloader) : option (exitReason * taskMgr * Downloader) :=
  let bMaster := bool_decide (peerID conn = masterPeer d) in
  match downloadLoop conn script t d with
  | None => None
  | Some (why, t, d) =>
      let t := onPeerQuit t (peerID conn) in
      let d := if bMaster then Cancel d else d in
      (* deferred d.sessionWG.Done() *)
      Some (why, t, set_sessionWG (sessionWG d - 1) d)
  end.

(** ** processBlocks

    [headInfos] is a slice of pointers: the head infos live in [heap],
    shared with the task manager.  The result carries the calls of
    [WriteBlock] in order, each block with what the call returned. *)
Definition setProcessed (h : nat) (heap : nat → masterHeadInfo) : nat → masterHeadInfo :=
  λ p, if decide (p = h) then mkHeadInfo (block (heap h)) taskStatusProcessed else heap p.

Definition fatal (err : option error) : bool :=
  match err with
  | None => false
  | Some e => bool_decide (e ≠ ErrBlockAlreadyExist)
  end.

Fixpoint writeBlocks (headInfos : list nat) (heap : nat → masterHeadInfo)
    (written : list (Block * option error)) (d : Downloader)
  : (nat → masterHeadInfo) * list (Block * option error) * Downloader :=
  match headInfos with
  | [] => (heap, written, d)
  | h :: headInfos =>
      let b := block (heap h) in
      let '(c, err) := WriteBlock (chain d) b in
      let d := set_chain c d in
      if fatal err then (heap, written ++ [(b, err)], Cancel d)
      else writeBlocks headInfos (setProcessed h heap) (written ++ [(b, err)]) d
  end.

Definition processBlocks (headInfos : list nat) (heap : nat → masterHeadInfo)
    (d : Downloader)
  : (nat → masterHeadInfo) * list (Block * option error) * Downloader :=
  writeBlocks headInfos heap [] d.

(** ** DeliverMsg

    The function looks the connection up and hands it the message; the
    result is the call of [peerConn.deliverMsg] it makes, if any. *)
Definition DeliverMsg (id : string) (msg : Message) (d : Downloader)
  : option (peerConn * Z * Message) :=
  match peers d !! id with
  | None => None
  | Some c => Some (c, Code msg, msg)
  end.

(** ** Vocabulary of the statements *)

(** The peer table as [RegisterPeer] builds it: a connection sits under
    its own [peerID], was allocated before the next one to come, and no
    two entries hold the same connection. *)
Definition tableOk (d : Downloader) : Prop :=
  (∀ id c, peers d !! id = Some c → peerID c = id ∧ (connId c < nextConn d)%nat) ∧
  (∀ id1 id2 c1 c2,
     peers d !! id1 = Some c1 → peers d !! id2 = Some c2 →
     connId c1 = connId c2 → id1 = id2).

(** A peer that never answers a request of the walk with more headers
    than the request asked for; [cmpCount] is the number of headers
    the walk has compared so far. *)
Fixpoint honest (maxFetchAncestry cmpCount : Z) (script : list response) : Prop :=
  match script with
  | Headers headers :: script =>
      Z.of_nat (length headers) ≤ fetchCountOf maxFetchAncestry cmpCount ∧
      honest maxFetchAncestry (cmpCount + Z.of_nat (length headers)) script
  | _ => True
  end.

(** The headers of a remote chain from height [start] down, [n] of
    them, and the answers of a peer that serves that chain faithfully
    to the first [k] requests of a walk. *)
Fixpoint descending (remote : Z → BlockHeader) (start : Z) (n : nat) : list BlockHeader :=
  match n with
  | O => []
  | S n => remote start :: descending remote (start - 1) n
  end.

Fixpoint faithfulAnswers (remote : Z → BlockHeader) (top maxFetchAncestry cmpCount : Z)
    (k : nat) : list response :=
  match k with
  | O => []
  | S k =>
      let amount := fetchCountOf maxFetchAncestry cmpCount in
      Headers (descending remote (top - cmpCount) (Z.to_nat amount))
      :: faithfulAnswers remote top maxFetchAncestry (cmpCount + amount) k
  end.

(** The chain after the blocks [bs] were written to it, one after the
    other. *)
Fixpoint chainAfter (c : Chain) (bs : list Block) : Chain :=
  match bs with
  | [] => c
  | b :: bs => chainAfter (WriteBlock c b).1 bs
  end.


(** A request of the walk within its bounds: in reverse order, for
    between 1 and [MaxHeaderFetch] headers, from a height that is at
    most [top], down to a height that is at least [low]. *)
Definition walkRequest (conn : peerConn) (top low : Z) (x : string * request) : Prop :=
  ∃ start amount,
    x = (peerID conn, ReqHeaders EmptyHash start amount true) ∧
    1 ≤ amount ≤ MaxHeaderFetch ∧ start ≤ top ∧ low ≤ start - amount + 1.

(** [d'] is [d] with more requests sent, and nothing else changed. *)
Definition sentMore (d d' : Downloader) : Prop :=
  ∃ l, d' = set_sent (sent d ++ l) d.

(** * Properties *)

(** ** Machine arithmetic *)

Lemma u64_int (z : Z) : u64 (int z) = u64 z.
Proof.
  unfold u64, int. rewrite Zminus_mod_idemp_l. f_equal. lia.
Qed.

Lemma int_small (z : Z) : - 2 ^ 63 ≤ z < 2 ^ 63 → int z = z.
Proof.
  intros Hz. unfold int. rewrite Z.mod_small; lia.
Qed.

Lemma u64_small (z : Z) : 0 ≤ z < 2 ^ 64 → u64 z = z.
Proof. intros Hz. unfold u64. by rewrite Z.mod_small. Qed.

Lemma u64_sub_u64 (a b : Z) : u64 (a - u64 b) = u64 (a - b).
Proof. unfold u64. by rewrite Zminus_mod_idemp_r. Qed.

Lemma topOf_min (localHeight height : Z) : topOf localHeight height = Z.min localHeight height.
Proof. unfold topOf. case_decide; lia. Qed.

Lemma maxFetchAncestryOf_min (top : Z) :
  0 ≤ top → maxFetchAncestryOf top = Z.min MaxForkAncestry (top + 1).
Proof.
  intros Htop. unfold maxFetchAncestryOf, MaxForkAncestry. case_decide; [lia|].
  rewrite (int_small top) by lia. rewrite int_small by lia. lia.
Qed.

Lemma fetchCountOf_le (maxFetchAncestry cmpCount : Z) :
  fetchCountOf maxFetchAncestry cmpCount ≤ MaxHeaderFetch.
Proof. unfold fetchCountOf. case_decide; lia. Qed.

Lemma fetchCountOf_small mf c :
  0 ≤ c ≤ mf → mf < 2 ^ 63 → fetchCountOf mf c = Z.min MaxHeaderFetch (mf - c).
Proof.
  intros Hc Hmf. unfold fetchCountOf. rewrite int_small by lia.
  case_decide; lia.
Qed.

(** ** Frame lemmas: what the steps leave alone *)

Lemma Cancel_fired d : fired (Cancel d) = fired d.
Proof. unfold Cancel. by destruct (cancelCh d). Qed.

Lemma Cancel_syncStatus d : syncStatus (Cancel d) = syncStatus d.
Proof. unfold Cancel. by destruct (cancelCh d). Qed.

Lemma Cancel_closed d : cancelCh d ≠ ChNil → cancelCh (Cancel d) = ChClosed.
Proof. unfold Cancel. by destruct (cancelCh d) eqn:E; simpl; try rewrite E. Qed.

Lemma Cancel_nil_iff d : cancelCh (Cancel d) = ChNil ↔ cancelCh d = ChNil.
Proof. unfold Cancel. destruct (cancelCh d) eqn:E; simpl; rewrite ?E; naive_solver. Qed.

(** ** The comparison of one batch with the local chain *)

(** The local chain has a hash at the header's height, and it differs. *)
Definition differs (c : Chain) (h : BlockHeader) : Prop :=
  ∃ localHash, GetBlockHash c (Height h) = Ok localHash ∧ localHash ≠ hdrHash h.

Lemma compareHeaders_None c headers :
  compareHeaders c headers = None ↔ Forall (differs c) headers.
Proof.
  induction headers as [|h headers IH]; simpl.
  - split; [constructor | done].
  - destruct (GetBlockHash c (Height h)) as [localHash|e] eqn:E.
    + case_decide as Heq.
      * split; [done|]. intros Hall. apply Forall_cons in Hall as [(lh & Hlh & Hne) _].
        congruence.
      * rewrite IH. split.
        -- intros Hall. constructor; [by exists localHash | done].
        -- by intros [_ Hall]%Forall_cons.
    + split; [done|]. intros [(lh & Hlh & _) _]%Forall_cons. congruence.
Qed.


Lemma compareHeaders_Err c headers e :
  compareHeaders c headers = Some (Err e) ↔
  ∃ pre x post, headers = pre ++ x :: post ∧ Forall (differs c) pre ∧
                GetBlockHash c (Height x) = Err e.
Proof.
  induction headers as [|h headers IH]; simpl.
  - split; [done|]. intros (pre & x & post & Heq & _). by destruct pre.
  - destruct (GetBlockHash c (Height h)) as [localHash|e'] eqn:E.
    + case_decide as Heq.
      * split; [done|].
        intros ([|y pre] & x & post & Hsplit & Hpre & Hx); simplify_eq/=.
        -- congruence.
        -- apply Forall_cons in Hpre as [(lh & Hlh & Hne) _]. congruence.
      * rewrite IH. split.
        -- intros (pre & x & post & -> & Hpre & Hx).
           exists (h :: pre), x, post. repeat split; [|done].
           constructor; [by exists localHash | done].
        -- intros ([|y pre] & x & post & Hsplit & Hpre & Hx); simplify_eq/=.
           ++ congruence.
           ++ apply Forall_cons in Hpre as [_ Hpre]. by exists pre, x, post.
    + split.
      * intros [= <-]. exists [], h, headers. repeat split; [constructor | done].
      * intros ([|y pre] & x & post & Hsplit & Hpre & Hx); simplify_eq/=.
        -- congruence.
        -- apply Forall_cons in Hpre as [(lh & Hlh & _) _]. congruence.
Qed.

(** ** Steps that only send requests *)

Lemma sentMore_refl d : sentMore d d.
Proof. exists []. destruct d. unfold set_sent. simpl. by rewrite app_nil_r. Qed.

Lemma sentMore_send conn r d : sentMore d (send conn r d).
Proof. by exists [(peerID conn, r)]. Qed.

Lemma sentMore_trans d1 d2 d3 : sentMore d1 d2 → sentMore d2 d3 → sentMore d1 d3.
Proof.
  intros [l1 ->] [l2 ->]. exists (l1 ++ l2). unfold set_sent. simpl.
  by rewrite app_assoc.
Qed.

Lemma sentMore_frame d d' :
  sentMore d d' →
  cancelCh d' = cancelCh d ∧ masterPeer d' = masterPeer d ∧ peers d' = peers d ∧
  syncStatus d' = syncStatus d ∧ tm d' = tm d ∧ chain d' = chain d ∧
  sessionWG d' = sessionWG d ∧ fired d' = fired d ∧ spawned d' = spawned d ∧
  closedConns d' = closedConns d ∧ nextConn d' = nextConn d.
Proof. by intros [l ->]. Qed.

Lemma sentMore_chain d d' : sentMore d d' → chain d' = chain d.
Proof. by intros [l ->]. Qed.

Lemma sentMore_fired d d' : sentMore d d' → fired d' = fired d.
Proof. by intros [l ->]. Qed.

Lemma fetchHeight_sentMore conn script d r rest d' :
  fetchHeight conn script d = Some (r, rest, d') → sentMore d d'.
Proof.
  unfold fetchHeight. simpl.
  destruct script as [|[e|e|[|h [|h' hs]]] script]; try case_decide;
    intros; simplify_eq; apply sentMore_send.
Qed.

(** ** The ancestor walk *)

Lemma ancestorLoop_unfold conn top maxFetchAncestry cmpCount script d :
  ancestorLoop conn top maxFetchAncestry cmpCount script d =
  if decide (fetchCountOf maxFetchAncestry cmpCount = 0)
  then Some (Err errMaxForkAncestor, script, d)
  else
    let d1 := send conn (ReqHeaders EmptyHash (u64 (top - u64 cmpCount))
                           (fetchCountOf maxFetchAncestry cmpCount) true) d in
    match script with
    | [] => None
    | WaitErr e :: script => Some (Err e, script, d1)
    | DeserializeErr e :: script => Some (Err e, script, d1)
    | Headers headers :: script =>
        if decide (length headers = 0%nat) then Some (Err errInvalidAncestor, script, d1)
        else
          match compareHeaders (chain d1) headers with
          | Some (Ok cmpHeight) => Some (Ok cmpHeight, script, d1)
          | Some (Err e) => Some (Err e, script, d1)
          | None =>
              ancestorLoop conn top maxFetchAncestry
                (int (cmpCount + Z.of_nat (length headers))) script d1
          end
    end.
Proof. by destruct script. Qed.

Lemma ancestorLoop_sentMore conn top mf script :
  ∀ c d r rest d', ancestorLoop conn top mf c script d = Some (r, rest, d') → sentMore d d'.
Proof.
  induction script as [|x script IH]; intros c d r rest d'; rewrite ancestorLoop_unfold.
  - case_decide; [|done]. intros; simplify_eq. apply sentMore_refl.
  - case_decide; [intros; simplify_eq; apply sentMore_refl|].
    cbv zeta. destruct x as [e|e|hs].
    + intros; simplify_eq. apply sentMore_send.
    + intros; simplify_eq. apply sentMore_send.
    + case_decide; [intros; simplify_eq; apply sentMore_send|].
      destruct (compareHeaders _ hs) as [[a|e]|].
      * intros; simplify_eq. apply sentMore_send.
      * intros; simplify_eq. apply sentMore_send.
      * intros Hrec. eapply sentMore_trans; [apply sentMore_send|]. by eapply IH.
Qed.

(** A walk that is still waiting after [prefix] has used all of it, and
    goes on with whatever comes next from a state where it asks for
    more. *)
Lemma ancestorLoop_waiting conn top mf prefix :
  ∀ c d,
    ancestorLoop conn top mf c prefix d = None →
    ∃ c' d',
      fetchCountOf mf c' ≠ 0 ∧ sentMore d d' ∧
      ∀ tail, ancestorLoop conn top mf c (prefix ++ tail) d
              = ancestorLoop conn top mf c' tail d'.
Proof.
  induction prefix as [|r prefix IH]; intros c d; rewrite ancestorLoop_unfold.
  - case_decide as Hfc; [done|]. intros _. exists c, d.
    split; [done|]. split; [apply sentMore_refl | done].
  - case_decide as Hfc; [done|]. cbv zeta.
    destruct r as [e|e|hs]; [done..|].
    case_decide as Hlen; [done|].
    destruct (compareHeaders _ hs) as [[a|e]|] eqn:Hcmp; [done..|].
    intros Hrec. apply IH in Hrec as (c' & d' & Hc' & Hmore & Htail).
    exists c', d'. split; [done|]. split.
    + eapply sentMore_trans; [apply sentMore_send | done].
    + intros tail. rewrite <- Htail. simpl app.
      rewrite (ancestorLoop_unfold _ _ _ _ (_ :: _)).
      rewrite decide_False by done. cbv zeta.
      rewrite decide_False by done. by rewrite Hcmp.
Qed.

(** Where the errors of a walk come from. *)
Lemma ancestorLoop_Err conn top mf script :
  ∀ c d e rest d',
    ancestorLoop conn top mf c script d = Some (Err e, rest, d') →
    e = errMaxForkAncestor ∨ e = errInvalidAncestor ∨
    WaitErr e ∈ script ∨ DeserializeErr e ∈ script ∨
    ∃ hs h, Headers hs ∈ script ∧ h ∈ hs ∧ GetBlockHash (chain d) (Height h) = Err e.
Proof.
  induction script as [|r script IH]; intros c d e rest d'; rewrite ancestorLoop_unfold.
  - case_decide; [|done]. intros; simplify_eq. by left.
  - case_decide; [intros; simplify_eq; by left|].
    cbv zeta. destruct r as [e0|e0|hs].
    + intros; simplify_eq. do 2 right. left. apply list_elem_of_here.
    + intros; simplify_eq. do 3 right. left. apply list_elem_of_here.
    + case_decide; [intros; simplify_eq; right; by left|].
      destruct (compareHeaders _ hs) as [[a|e0]|] eqn:Hcmp; [done| |].
      * intros; simplify_eq.
        apply compareHeaders_Err in Hcmp as (pre & x & post & -> & _ & Hx).
        do 4 right. exists (pre ++ x :: post), x.
        split; [apply list_elem_of_here|]. split; [|done].
        apply elem_of_app. right. apply list_elem_of_here.
      * intros Hrec. apply IH in Hrec as [?|[?|[?|[?|(hs' & h & Hin & Hh & Hget)]]]].
        -- by left.
        -- right; by left.
        -- do 2 right. left. by apply list_elem_of_further.
        -- do 3 right. left. by apply list_elem_of_further.
        -- do 4 right. exists hs', h. split; [by apply list_elem_of_further | done].
Qed.

(** A walk that has received exactly [maxFetchAncestry] headers, none
    of them with the local hash, gives up. *)
Lemma ancestorLoop_exhausted conn top mf batches :
  ∀ c d rest,
    0 ≤ c → mf < 2 ^ 63 →
    c + Z.of_nat (length (concat batches)) = mf →
    Forall (λ b, b ≠ [] ∧ Forall (differs (chain d)) b) batches →
    ∃ d', ancestorLoop conn top mf c ((Headers <$> batches) ++ rest) d
          = Some (Err errMaxForkAncestor, rest, d').
Proof.
  induction batches as [|b batches IH]; intros c d rest Hc Hmf Hsum Hall;
    rewrite ancestorLoop_unfold.
  - simpl in Hsum. assert (c = mf) as -> by lia.
    rewrite decide_True; [by eexists|].
    unfold fetchCountOf. rewrite Z.sub_diag. change (int 0) with 0.
    by rewrite decide_False by (unfold MaxHeaderFetch; lia).
  - apply Forall_cons in Hall as [[Hb Hdiff] Hall].
    simpl in Hsum. rewrite length_app in Hsum.
    assert (0 < length b)%nat by (destruct b; [done | simpl; lia]).
    rewrite decide_False; last first.
    { unfold fetchCountOf. rewrite int_small by lia.
      case_decide; unfold MaxHeaderFetch; lia. }
    simpl. rewrite decide_False by lia.
    apply compareHeaders_None in Hdiff. rewrite Hdiff.
    rewrite int_small by lia. apply IH; [lia | done | lia | done].
Qed.

Lemma findCommonAncestorHeight_waiting conn height prefix d :
  findCommonAncestorHeight conn height prefix d = None →
  ∃ c' d',
    fetchCountOf (maxFetchAncestryOf (topOf (Height (Header (CurrentBlock (chain d)))) height)) c' ≠ 0 ∧
    sentMore d d' ∧
    ∀ tail, findCommonAncestorHeight conn height (prefix ++ tail) d
            = ancestorLoop conn (topOf (Height (Header (CurrentBlock (chain d)))) height)
                (maxFetchAncestryOf (topOf (Height (Header (CurrentBlock (chain d)))) height))
                c' tail d'.
Proof.
  unfold findCommonAncestorHeight. case_decide as Htop; [done|].
  intros (c' & d' & Hc' & Hmore & Htail)%ancestorLoop_waiting.
  by exists c', d'.
Qed.





(** C4. The failures of the ancestor walk.  Whatever came before, a
    batch of zero headers that the walk is waiting for makes it fail
    with [errInvalidAncestor].  When the headers received add up to
    exactly [maxFetchAncestry] and none of them has the local hash, it
    fails with [errMaxForkAncestor].  And an error of the walk is one of
    these two, the error of a failed wait or of a payload that did not
    decode, or the error the local store gave for the height of a
    header received. *)
Theorem ancestor_walk_failures conn height d :
  let localHeight := Height (Header (CurrentBlock (chain d))) in
  let top := Z.min localHeight height in
  0 ≤ localHeight < 2 ^ 64 → 0 ≤ height < 2 ^ 64 →
  (∀ prefix rest,
     findCommonAncestorHeight conn height prefix d = None →
     ∃ d', findCommonAncestorHeight conn height (prefix ++ Headers [] :: rest) d
           = Some (Err errInvalidAncestor, rest, d')) ∧
  (∀ batches rest,
     top ≠ 0 →
     Forall (λ b, b ≠ [] ∧ Forall (differs (chain d)) b) batches →
     Z.of_nat (length (concat batches)) = Z.min MaxForkAncestry (top + 1) →
     ∃ d', findCommonAncestorHeight conn height ((Headers <$> batches) ++ rest) d
           = Some (Err errMaxForkAncestor, rest, d')) ∧
  (∀ script e rest d',
     findCommonAncestorHeight conn height script d = Some (Err e, rest, d') →
     e = errMaxForkAncestor ∨ e = errInvalidAncestor ∨
     WaitErr e ∈ script ∨ DeserializeErr e ∈ script ∨
     ∃ hs h, Headers hs ∈ script ∧ h ∈ hs ∧ GetBlockHash (chain d) (Height h) = Err e).
Proof.
  intros localHeight top Hlocal Hheight.
  assert (topOf localHeight height = top) as Htop by apply topOf_min.
  assert (0 ≤ top < 2 ^ 64) as Hrange by (unfold top; lia).
  split; [|split].
  - intros prefix rest (c' & d' & Hc' & _ & Htail)%findCommonAncestorHeight_waiting.
    rewrite Htail, ancestorLoop_unfold, decide_False by done.
    cbv zeta. rewrite decide_True by done. by eexists.
  - intros batches rest Hne Hall Hsum.
    unfold findCommonAncestorHeight. fold localHeight. rewrite Htop.
    rewrite decide_False by done. rewrite maxFetchAncestryOf_min by lia.
    apply ancestorLoop_exhausted; [done | unfold MaxForkAncestry; lia | lia | done].
  - intros script e rest d'. unfold findCommonAncestorHeight.
    case_decide; [done|]. apply ancestorLoop_Err.
Qed.

Lemma findCommonAncestorHeight_sentMore conn height script d r rest d' :
  findCommonAncestorHeight conn height script d = Some (r, rest, d') → sentMore d d'.
Proof.
  unfold findCommonAncestorHeight. case_decide.
  - intros; simplify_eq. apply sentMore_refl.
  - apply ancestorLoop_sentMore.
Qed.

(** ** The session *)

Lemma spawnWorkers_frame localTD t cs :
  ∀ d, let d' := spawnWorkers localTD t cs d in
       fired d' = fired d ∧ syncStatus d' = syncStatus d ∧ peers d' = peers d ∧
       cancelCh d' = cancelCh d ∧ masterPeer d' = masterPeer d.
Proof.
  induction cs as [|[id c] cs IH]; intros d; simpl; [done|].
  case_decide; [apply IH|].
  destruct (IH (spawn c (Some t) d)) as (-> & -> & -> & -> & ->). done.
Qed.

Lemma startFetching_fired localTD t d : fired (startFetching localTD t d) = fired d.
Proof.
  unfold startFetching.
  by destruct (spawnWorkers_frame localTD t (map_to_list (peers (set_syncStatus statusFetching d)))
                 (set_syncStatus statusFetching d)) as (-> & _).
Qed.

(** Once the remote height and the ancestor are known, the body runs to
    its end, and its result is decided by the closed task manager. *)
Lemma doSynchroniseBody_completed conn head td localTD script d latest script1 d1
    ancestor script2 d2 :
  fetchHeight conn script d = Some (Ok latest, script1, d1) →
  findCommonAncestorHeight conn (Height latest) script1 d1 = Some (Ok ancestor, script2, d2) →
  let t := newTaskMgr (masterPeer d2) (u64 (ancestor + 1)) (Height latest) in
  let closed :=
    tm_close (awaitWorkers t (spawned (startFetching localTD t (set_tm (Some t) d2)))).1 in
  ∃ d', doSynchroniseBody conn head td localTD script d
          = Some (if isDone closed then None else Some errSyncErr, d') ∧
        fired d' = fired d ∧ syncStatus d' = statusCleaning ∧ tm d' = None.
Proof.
  intros Hfetch Hwalk t closed. unfold doSynchroniseBody. rewrite Hfetch, Hwalk.
  fold t. subst closed. destruct (awaitWorkers t _) as [t' cancelled]. simpl.
  destruct (isDone (tm_close t')); eexists; (split; [reflexivity|]); simpl;
    (split; [|done]);
    destruct cancelled; rewrite ?Cancel_fired, startFetching_fired; simpl;
    rewrite (sentMore_fired _ _ (findCommonAncestorHeight_sentMore _ _ _ _ _ _ _ Hwalk));
    apply (sentMore_fired _ _ (fetchHeight_sentMore _ _ _ _ _ _ Hfetch)).
Qed.

Lemma doSynchroniseBody_fired conn head td localTD script d r d' :
  doSynchroniseBody conn head td localTD script d = Some (r, d') → fired d' = fired d.
Proof.
  intros Hbody.
  destruct (fetchHeight conn script d) as [[[[latest|e] script1] d1]|] eqn:Hfetch.
  - destruct (findCommonAncestorHeight conn (Height latest) script1 d1)
      as [[[[ancestor|e] script2] d2]|] eqn:Hwalk.
    + destruct (doSynchroniseBody_completed conn head td localTD _ _ _ _ _ _ _ _ Hfetch Hwalk)
        as (d'' & Heq & Hfired & _).
      rewrite Heq in Hbody. by simplify_eq.
    + unfold doSynchroniseBody in Hbody. rewrite Hfetch, Hwalk in Hbody. simplify_eq.
      rewrite (sentMore_fired _ _ (findCommonAncestorHeight_sentMore _ _ _ _ _ _ _ Hwalk)).
      apply (sentMore_fired _ _ (fetchHeight_sentMore _ _ _ _ _ _ Hfetch)).
    + unfold doSynchroniseBody in Hbody. by rewrite Hfetch, Hwalk in Hbody.
  - unfold doSynchroniseBody in Hbody. rewrite Hfetch in Hbody. simplify_eq.
    apply (sentMore_fired _ _ (fetchHeight_sentMore _ _ _ _ _ _ Hfetch)).
  - unfold doSynchroniseBody in Hbody. by rewrite Hfetch in Hbody.
Qed.

Lemma doSynchronise_fired conn head td localTD script d r d' :
  doSynchronise conn head td localTD script d = Some (r, d') →
  fired d' = fired d ++
    [DownloaderStartEvent;
     match r with None => DownloaderDoneEvent | Some _ => DownloaderFailedEvent end].
Proof.
  unfold doSynchronise.
  destruct (doSynchroniseBody _ _ _ _ _ _) as [[[e|] d1]|] eqn:Hbody; [| |done].
  - intros ?; simplify_eq. apply doSynchroniseBody_fired in Hbody.
    simpl in *. rewrite Hbody. by rewrite <- app_assoc.
  - intros ?; simplify_eq. apply doSynchroniseBody_fired in Hbody.
    simpl in *. rewrite Hbody. by rewrite <- app_assoc.
Qed.

(** C1. A session that got the remote height and the common ancestor
    runs to its end: [doSynchronise] returns no error exactly when
    [isDone] holds of the task manager after [close], and [errSyncErr]
    otherwise.  Every return of [doSynchronise], early ones included,
    fires [DownloaderStartEvent] and then [DownloaderDoneEvent] when
    there is no error, [DownloaderFailedEvent] when there is one. *)
Theorem doSynchronise_outcome conn head td localTD script d :
  (∀ latest script1 d1 ancestor script2 d2,
     fetchHeight conn script (Fire DownloaderStartEvent d) = Some (Ok latest, script1, d1) →
     findCommonAncestorHeight conn (Height latest) script1 d1
       = Some (Ok ancestor, script2, d2) →
     let t := newTaskMgr (masterPeer d2) (u64 (ancestor + 1)) (Height latest) in
     let closed :=
       tm_close (awaitWorkers t (spawned (startFetching localTD t (set_tm (Some t) d2)))).1 in
     ∃ d', doSynchronise conn head td localTD script d
             = Some (if isDone closed then None else Some errSyncErr, d') ∧
           (isDone closed = true → fired d' = fired d ++ [DownloaderStartEvent; DownloaderDoneEvent]) ∧
           (isDone closed = false → fired d' = fired d ++ [DownloaderStartEvent; DownloaderFailedEvent])) ∧
  (∀ r d',
     doSynchronise conn head td localTD script d = Some (r, d') →
     fired d' = fired d ++
       [DownloaderStartEvent;
        match r with None => DownloaderDoneEvent | Some _ => DownloaderFailedEvent end]).
Proof.
  split; [|apply doSynchronise_fired].
  intros latest script1 d1 ancestor script2 d2 Hfetch Hwalk t closed.
  destruct (doSynchroniseBody_completed conn head td localTD _ _ _ _ _ _ _ _ Hfetch Hwalk)
    as (d' & Hbody & Hfired & _).
  fold t closed in Hbody.
  assert (∃ d'', doSynchronise conn head td localTD script d
                 = Some (if isDone closed then None else Some errSyncErr, d'')) as [d'' Hdo].
  { unfold doSynchronise. rewrite Hbody. destruct (isDone closed); by eexists. }
  exists d''. split; [done|].
  apply doSynchronise_fired in Hdo as Hev.
  split; intros Hdone; by rewrite Hdone in Hev.
Qed.

(** C10. A header received during the walk that has no local hash at
    its height is not skipped.  When the walk is waiting for its next
    answer and the batch that comes holds such a header, with before it
    in the batch only headers whose local hash differs, the walk fails
    with the error of the store, and so does the session:
    [doSynchronise] returns that error and fires
    [DownloaderFailedEvent]. *)
Theorem ancestor_walk_store_error conn head td localTD r0 prefix pre h post rest d
    latest d1 e :
  let script := prefix ++ Headers (pre ++ h :: post) :: rest in
  fetchHeight conn (r0 :: script) (Fire DownloaderStartEvent d) = Some (Ok latest, script, d1) →
  findCommonAncestorHeight conn (Height latest) prefix d1 = None →
  Forall (differs (chain d)) pre →
  GetBlockHash (chain d) (Height h) = Err e →
  (∃ d2, findCommonAncestorHeight conn (Height latest) script d1 = Some (Err e, rest, d2)) ∧
  (∃ d', doSynchronise conn head td localTD (r0 :: script) d = Some (Some e, d') ∧
         fired d' = fired d ++ [DownloaderStartEvent; DownloaderFailedEvent]).
Proof.
  intros script Hfetch Hwait Hpre Hh.
  assert (chain d1 = chain d) as Hchain.
  { by rewrite (sentMore_chain _ _ (fetchHeight_sentMore _ _ _ _ _ _ Hfetch)). }
  assert (∃ d2, findCommonAncestorHeight conn (Height latest) script d1
                = Some (Err e, rest, d2)) as [d2 Hwalk].
  { apply findCommonAncestorHeight_waiting in Hwait as (c' & d'' & Hc' & Hmore & Htail).
    subst script. rewrite Htail, ancestorLoop_unfold, decide_False by done.
    cbv zeta. rewrite decide_False by (rewrite length_app; simpl; lia).
    assert (compareHeaders (chain d'') (pre ++ h :: post) = Some (Err e)) as Hcmp.
    { apply compareHeaders_Err. exists pre, h, post.
      rewrite (sentMore_chain _ _ Hmore), Hchain. done. }
    simpl chain. rewrite Hcmp. by eexists. }
  split; [by exists d2|].
  assert (doSynchronise conn head td localTD (r0 :: script) d
          = Some (Some e, Fire DownloaderFailedEvent d2)) as Hdo.
  { unfold doSynchronise, doSynchroniseBody. by rewrite Hfetch, Hwalk. }
  eexists. split; [exact Hdo|]. by apply doSynchronise_fired in Hdo.
Qed.

(** ** Synchronise *)

(** C2, as the code has it.  With a session active the call fails with
    [errIsSynchronising] and changes nothing, so the state stays that of
    the active session.  With no session active and the master peer not
    in the table it fails with [errPeerNotFound], and the state is
    [statusNone] again when it returns. *)
Theorem Synchronise_early_failures id head td localTD script d :
  (syncStatus d ≠ statusNone →
     Synchronise id head td localTD script d = Some (Some errIsSynchronising, d)) ∧
  (syncStatus d = statusNone → peers d !! id = None →
     ∃ d', Synchronise id head td localTD script d = Some (Some errPeerNotFound, d') ∧
           syncStatus d' = statusNone ∧ peers d' = peers d).
Proof.
  unfold Synchronise. split.
  - intros Hbusy. by rewrite decide_True.
  - intros Hnone Hpeer. rewrite decide_False by (by intros []).
    simpl. rewrite Hpeer. by eexists.
Qed.

(** C9. A call that fails early, with [errIsSynchronising] or
    [errPeerNotFound], fires no event.  A call that gets past both
    checks fires [DownloaderStartEvent] and then one of the two closing
    events, all from [doSynchronise]. *)
Theorem Synchronise_events id head td localTD script d :
  (syncStatus d ≠ statusNone ∨ peers d !! id = None →
     ∃ e d', Synchronise id head td localTD script d = Some (Some e, d') ∧
             (e = errIsSynchronising ∨ e = errPeerNotFound) ∧
             fired d' = fired d) ∧
  (∀ conn r d',
     syncStatus d = statusNone → peers d !! id = Some conn →
     Synchronise id head td localTD script d = Some (r, d') →
     ∃ d1, doSynchronise conn head td localTD script
             (set_masterPeer id (set_cancelCh ChOpen (set_syncStatus statusPreparing d)))
           = Some (r, d1) ∧
           fired d' = fired d ++
             [DownloaderStartEvent;
              match r with None => DownloaderDoneEvent | Some _ => DownloaderFailedEvent end]).
Proof.
  unfold Synchronise. split.
  - intros Hearly. destruct (decide (syncStatus d ≠ statusNone)) as [Hbusy|Hfree].
    + exists errIsSynchronising, d. split; [done|]. split; [by left | done].
    + destruct Hearly as [Hbusy|Hpeer]; [done|]. simpl. rewrite Hpeer.
      eexists _, _. split; [done|]. split; [by right | done].
  - intros conn r d' Hnone Hpeer. rewrite decide_False by (by intros []).
    simpl. rewrite Hpeer.
    destruct (doSynchronise _ _ _ _ _ _) as [[r1 d1]|] eqn:Hdo; [|done].
    intros ?; simplify_eq. exists d1. split; [done|].
    by apply doSynchronise_fired in Hdo.
Qed.

(** ** Workers *)

(** A peer whose total difficulty is above the local one. *)
Definition ahead (localTD : Z) (kc : string * peerConn) : Prop :=
  localTD < headTD (peer kc.2).

Local Instance ahead_dec localTD kc : Decision (ahead localTD kc).
Proof. unfold ahead. apply _. Defined.

Lemma spawnWorkers_spawned localTD t cs :
  ∀ d, spawned (spawnWorkers localTD t cs d)
       = spawned d ++ ((λ kc, (kc.2, Some t)) <$> filter (ahead localTD) cs).
Proof.
  induction cs as [|[id c] cs IH]; intros d; simpl.
  - by rewrite app_nil_r.
  - case_decide as Htd.
    + rewrite filter_cons_False by (unfold ahead; simpl; lia). apply IH.
    + rewrite filter_cons_True by (unfold ahead; simpl; lia).
      rewrite IH. simpl. by rewrite <- app_assoc.
Qed.

(** C5. On entering [statusFetching], [doSynchronise] starts one worker
    for each registered peer whose total difficulty is above [localTD],
    and no other: the workers started match, one for one, a
    duplicate-free list of exactly those peer identifiers.  The master
    is one of them when it is registered with such a difficulty.
    [RegisterPeer] in [statusFetching] starts a worker for the new
    connection whatever the peer's difficulty. *)
Theorem workers_spawned localTD t d id p :
  (let d' := startFetching localTD t d in
   syncStatus d' = statusFetching ∧
   ∃ ids ws,
     spawned d' = spawned d ++ ws ∧
     NoDup ids ∧
     (∀ i, i ∈ ids ↔ ∃ c, peers d !! i = Some c ∧ localTD < headTD (peer c)) ∧
     Forall2 (λ i w, peers d !! i = Some w.1 ∧ w.2 = Some t) ids ws ∧
     (∀ c, peers d !! masterPeer d = Some c → localTD < headTD (peer c) →
           (c, Some t) ∈ ws)) ∧
  (syncStatus d = statusFetching →
     spawned (RegisterPeer id p d)
     = spawned d ++ [(mkPeerConn (nextConn d) id p, tm d)]).
Proof.
  split.
  - unfold startFetching. simpl.
    set (d0 := set_syncStatus statusFetching d).
    destruct (spawnWorkers_frame localTD t (map_to_list (peers d)) d0) as (_ & -> & _).
    split; [done|].
    set (chosen := filter (ahead localTD) (map_to_list (peers d))).
    exists (chosen.*1), ((λ kc, (kc.2, Some t)) <$> chosen).
    split; [by rewrite spawnWorkers_spawned|]. split; [|split; [|split]].
    + eapply sublist_NoDup; [apply (NoDup_fst_map_to_list (peers d))|].
      apply fmap_sublist, sublist_filter.
    + intros i. rewrite list_elem_of_fmap. split.
      * intros ([i' c] & -> & [Hahead Hin%elem_of_map_to_list]%list_elem_of_filter).
        by exists c.
      * intros (c & Hc & Hahead). exists (i, c). split; [done|].
        apply list_elem_of_filter. split; [done | by apply elem_of_map_to_list].
    + apply Forall2_fmap, Forall_Forall2_diag, Forall_forall.
      intros [i c] [_ Hin%elem_of_map_to_list]%list_elem_of_filter. done.
    + intros c Hc Hahead. apply list_elem_of_fmap. exists (masterPeer d, c).
      split; [done|]. apply list_elem_of_filter.
      split; [done | by apply elem_of_map_to_list].
  - intros Hfetching. unfold RegisterPeer. simpl. by rewrite decide_True.
Qed.

Lemma Cancel_spawned d : spawned (Cancel d) = spawned d.
Proof. unfold Cancel. by destruct (cancelCh d). Qed.

(** The workers of a session are those started on entering
    [statusFetching], and they start with the cancellation channel that
    [Synchronise] made. *)
Lemma doSynchronise_workers conn head td localTD script d latest script1 d1
    ancestor script2 d2 :
  fetchHeight conn script (Fire DownloaderStartEvent d) = Some (Ok latest, script1, d1) →
  findCommonAncestorHeight conn (Height latest) script1 d1 = Some (Ok ancestor, script2, d2) →
  let t := newTaskMgr (masterPeer d2) (u64 (ancestor + 1)) (Height latest) in
  let started := startFetching localTD t (set_tm (Some t) d2) in
  cancelCh started = cancelCh d ∧ masterPeer started = masterPeer d ∧
  ∃ r d', doSynchronise conn head td localTD script d = Some (r, d') ∧
          spawned d' = spawned started.
Proof.
  intros Hfetch Hwalk t started.
  destruct (sentMore_frame _ _ (fetchHeight_sentMore _ _ _ _ _ _ Hfetch)) as (Hc1 & Hm1 & _).
  destruct (sentMore_frame _ _ (findCommonAncestorHeight_sentMore _ _ _ _ _ _ _ Hwalk))
    as (Hc2 & Hm2 & _).
  destruct (spawnWorkers_frame localTD t
              (map_to_list (peers (set_syncStatus statusFetching (set_tm (Some t) d2))))
              (set_syncStatus statusFetching (set_tm (Some t) d2)))
    as (_ & _ & _ & Hc & Hm).
  split; [|split].
  - unfold started, startFetching. simpl in *. congruence.
  - unfold started, startFetching. simpl in *. congruence.
  - unfold doSynchronise, doSynchroniseBody. rewrite Hfetch, Hwalk.
    fold t started. destruct (awaitWorkers t (spawned started)) as [t' cancelled].
    destruct (isDone (tm_close t')); eexists _, _; (split; [reflexivity|]); simpl;
      destruct cancelled; by rewrite ?Cancel_spawned.
Qed.

Lemma headerTurn_sentMore conn i t d b t' d' :
  headerTurn conn i t d = (b, t', d') → sentMore d d'.
Proof.
  unfold headerTurn. destruct (getReqHeaderInfo t conn) as [t1 [startNo amount]].
  case_decide; [|intros; simplify_eq; apply sentMore_refl].
  destruct (reqHeadersErr i); [intros; simplify_eq; apply sentMore_send|].
  destruct (headersMsg i) as [e|e|hs]; [intros; simplify_eq; apply sentMore_send..|].
  destruct (deliverHeaderMsg t1 (peerID conn) hs) as [t2 [e|]];
    intros; simplify_eq; apply sentMore_send.
Qed.

Lemma blockTurn_sentMore conn i h t d b t' d' :
  blockTurn conn i h t d = (b, t', d') → sentMore d d'.
Proof.
  unfold blockTurn. destruct (getReqBlocks t conn) as [t1 [startNo amount]].
  case_decide; [|intros; simplify_eq; apply sentMore_refl].
  destruct (reqBlocksErr i); [intros; simplify_eq; apply sentMore_send|].
  destruct (blocksPreMsg i) as [nums|e]; [|intros; simplify_eq; apply sentMore_send].
  destruct (blocksMsg i) as [blocks|e]; intros; simplify_eq; apply sentMore_send.
Qed.

(** The loop of a worker never turns the cancellation channel of the
    session into nil, and leaves the master's name alone. *)
Lemma downloadLoop_session conn script :
  ∀ t d why t' d',
    downloadLoop conn script t d = Some (why, t', d') →
    masterPeer d' = masterPeer d ∧ (cancelCh d ≠ ChNil → cancelCh d' ≠ ChNil).
Proof.
  induction script as [|i script IH]; intros t d why t' d'; simpl.
  - destruct (isDone t); [|done]. by intros; simplify_eq.
  - destruct (isDone t); [by intros; simplify_eq|].
    set (d0 := if envCancel i then Cancel d else d).
    assert (masterPeer d0 = masterPeer d ∧ (cancelCh d ≠ ChNil → cancelCh d0 ≠ ChNil))
      as [Hm0 Hc0].
    { subst d0. destruct (envCancel i); [|done]. split.
      - unfold Cancel. by destruct (cancelCh d).
      - intros Hd. by rewrite Cancel_closed. }
    destruct (headerTurn conn i t d0) as [[b1 t1] d1] eqn:Hh.
    apply headerTurn_sentMore, sentMore_frame in Hh as (Hc1 & Hm1 & _).
    destruct b1 as [h1|]; last first.
    { intros; simplify_eq. rewrite Hc1, Hm1. done. }
    destruct (blockTurn conn i h1 t1 d1) as [[b2 t2] d2] eqn:Hb.
    apply blockTurn_sentMore, sentMore_frame in Hb as (Hc2 & Hm2 & _).
    assert (masterPeer d2 = masterPeer d ∧ (cancelCh d ≠ ChNil → cancelCh d2 ≠ ChNil))
      as [Hm Hc] by (rewrite Hc2, Hm2, Hc1, Hm1; done).
    destruct b2 as [[|]|].
    + intros [Hm' Hc']%IH. rewrite Hm'. split; [done|]. auto.
    + destruct (idleSelect i); [by intros; simplify_eq..|].
      intros [Hm' Hc']%IH. rewrite Hm'. split; [done|]. auto.
    + by intros; simplify_eq.
Qed.

(** C6. When the worker of the master peer leaves its loop, for any
    reason, the cancellation channel of the session is closed by the
    time [peerDownload] returns. *)
Theorem master_exit_cancels conn t script d why t' d' :
  cancelCh d ≠ ChNil →
  peerID conn = masterPeer d →
  peerDownload conn t script d = Some (why, t', d') →
  cancelCh d' = ChClosed.
Proof.
  intros Hsession Hmaster. unfold peerDownload.
  rewrite bool_decide_eq_true_2 by done.
  destruct (downloadLoop conn script t d) as [[[why1 t1] d1]|] eqn:Hloop; [|done].
  intros ?; simplify_eq. simpl.
  apply downloadLoop_session in Hloop as [_ Hc]. apply Cancel_closed. auto.
Qed.

(** ** Writing blocks *)

Lemma fatal_false err : fatal err = false ↔ err = None ∨ err = Some ErrBlockAlreadyExist.
Proof.
  destruct err as [e|]; simpl.
  - rewrite bool_decide_eq_false. split.
    + intros Hnn. right. f_equal. by destruct (decide (e = ErrBlockAlreadyExist)).
    + intros [|[= ->]]; [done|]. by intros [].
  - split; [by left | done].
Qed.

Lemma fatal_true err : fatal err = true ↔ ∃ e, err = Some e ∧ e ≠ ErrBlockAlreadyExist.
Proof.
  destruct err as [e|]; simpl.
  - rewrite bool_decide_eq_true. split.
    + intros He. by exists e.
    + by intros (e' & [= <-] & He).
  - split; [done|]. by intros (e & ? & _).
Qed.

Lemma Cancel_set_chain c d : cancelCh (Cancel (set_chain c d)) = cancelCh (Cancel d).
Proof. unfold Cancel. simpl. by destruct (cancelCh d). Qed.

Lemma writeBlocks_run headInfos :
  ∀ heap written0 d heap' written d',
    writeBlocks headInfos heap written0 d = (heap', written, d') →
    ∃ done rest log,
      headInfos = done ++ rest ∧
      Forall2 (λ h w, w.1 = block (heap h) ∧
                      (w.2 = None ∨ w.2 = Some ErrBlockAlreadyExist)) done log ∧
      (∀ p, block (heap' p) = block (heap p) ∧
            status (heap' p) = if decide (p ∈ done) then taskStatusProcessed
                               else status (heap p)) ∧
      ((rest = [] ∧ written = written0 ++ log ∧ cancelCh d' = cancelCh d) ∨
       (∃ h rest' e,
          rest = h :: rest' ∧ e ≠ ErrBlockAlreadyExist ∧
          written = written0 ++ log ++ [(block (heap h), Some e)] ∧
          cancelCh d' = cancelCh (Cancel d))).
Proof.
  induction headInfos as [|h headInfos IH]; intros heap written0 d heap' written d'; simpl.
  - intros ?; simplify_eq. exists [], [], []. split; [done|]. split; [constructor|].
    split; [|left; by rewrite app_nil_r].
    intros p. by rewrite decide_False by apply not_elem_of_nil.
  - destruct (WriteBlock (chain d) (block (heap h))) as [c err] eqn:Hw.
    destruct (fatal err) eqn:Hfatal.
    + intros ?; simplify_eq. apply fatal_true in Hfatal as (e & -> & He).
      exists [], (h :: headInfos), []. split; [done|]. split; [constructor|]. split.
      * intros p. by rewrite decide_False by apply not_elem_of_nil.
      * right. exists h, headInfos, e. repeat split; [done|]. apply Cancel_set_chain.
    + intros Hrec. apply fatal_false in Hfatal.
      apply IH in Hrec as (done & rest & log & -> & Hlog & Hheap & Hend).
      exists (h :: done), rest, ((block (heap h), err) :: log).
      split; [done|]. split; [|split].
      * constructor; [done|]. eapply Forall2_impl; [exact Hlog|].
        intros x w [-> Hw2]. split; [|done].
        unfold setProcessed. case_decide; by subst.
      * intros p. destruct (Hheap p) as [Hb Hs]. rewrite Hb, Hs.
        unfold setProcessed. split.
        -- by destruct (decide (p = h)) as [->|].
        -- destruct (decide (p = h)) as [->|Hne].
           ++ rewrite (decide_True (P := h ∈ h :: done)) by apply list_elem_of_here.
              by case_decide.
           ++ destruct (decide (p ∈ done)) as [Hin|Hnin].
              ** by rewrite decide_True by by apply list_elem_of_further.
              ** rewrite decide_False; [done|].
                 intros [?|?]%elem_of_cons; done.
      * destruct Hend as [(-> & -> & Hc)|(h' & rest' & e & -> & He & -> & Hc)].
        -- left. by rewrite <- app_assoc.
        -- right. exists h', rest', e. repeat split; [done| |].
           ++ rewrite <- !app_assoc. simpl. do 3 f_equal.
              unfold setProcessed. case_decide; by subst.
           ++ rewrite Hc. apply Cancel_set_chain.
Qed.

(** C7. [processBlocks] writes the blocks of the run in order and
    stops at the first write that fails with an error other than
    [ErrBlockAlreadyExist].  The run splits into the blocks before that
    one ([done]) and the rest: every block of [done] was written with no
    error or with [ErrBlockAlreadyExist] and is marked processed, and the
    head infos outside [done] keep their status.  When the run is cut
    short, the failing block is the last one handed to [WriteBlock], and
    the session is cancelled; otherwise the cancellation channel is left
    alone. *)
Theorem processBlocks_run headInfos heap d heap' written d' :
  processBlocks headInfos heap d = (heap', written, d') →
  ∃ done rest log,
    headInfos = done ++ rest ∧
    Forall2 (λ h w, w.1 = block (heap h) ∧
                    (w.2 = None ∨ w.2 = Some ErrBlockAlreadyExist)) done log ∧
    (∀ p, block (heap' p) = block (heap p) ∧
          status (heap' p) = if decide (p ∈ done) then taskStatusProcessed
                             else status (heap p)) ∧
    ((rest = [] ∧ written = log ∧ cancelCh d' = cancelCh d) ∨
     (∃ h rest' e,
        rest = h :: rest' ∧ e ≠ ErrBlockAlreadyExist ∧
        written = log ++ [(block (heap h), Some e)] ∧
        cancelCh d' = cancelCh (Cancel d))).
Proof.
  unfold processBlocks. intros Hrun.
  apply writeBlocks_run in Hrun as (done & rest & log & ? & ? & ? & Hend).
  exists done, rest, log. do 3 (split; [done|]). exact Hend.
Qed.

(** ** The peer table *)

(** C8, as the code has it.  For a peer identifier that is not in the
    table, [RegisterPeer] followed by [UnRegisterPeer] leaves the table
    as it was. *)
Theorem register_unregister_fresh id p d :
  peers d !! id = None →
  peers (UnRegisterPeer id (RegisterPeer id p d)) = peers d.
Proof.
  intros Hfresh. unfold UnRegisterPeer, RegisterPeer. simpl.
  case_decide; simpl; rewrite lookup_insert_eq; simpl; by apply delete_insert_id.
Qed.

(** In general the pair of calls removes the identifier. *)
Lemma register_unregister_delete id p d :
  peers (UnRegisterPeer id (RegisterPeer id p d)) = delete id (peers d).
Proof.
  unfold UnRegisterPeer, RegisterPeer. simpl.
  case_decide; simpl; rewrite lookup_insert_eq; simpl; apply delete_insert_eq.
Qed.

(** * Further properties *)

(** ** Cancel and Terminate *)

Lemma Cancel_frame d :
  masterPeer (Cancel d) = masterPeer d ∧ peers (Cancel d) = peers d ∧
  syncStatus (Cancel d) = syncStatus d ∧ tm (Cancel d) = tm d ∧
  chain (Cancel d) = chain d ∧ sessionWG (Cancel d) = sessionWG d ∧
  fired (Cancel d) = fired d ∧ spawned (Cancel d) = spawned d ∧
  sent (Cancel d) = sent d ∧ closedConns (Cancel d) = closedConns d ∧
  nextConn (Cancel d) = nextConn d.
Proof. unfold Cancel. by destruct (cancelCh d). Qed.

Lemma Cancel_not_open d : cancelCh (Cancel d) ≠ ChOpen.
Proof. unfold Cancel. by destruct (cancelCh d) eqn:E; simpl; rewrite ?E. Qed.

Lemma Cancel_id d : cancelCh d ≠ ChOpen → Cancel d = d.
Proof. unfold Cancel. by destruct (cancelCh d). Qed.

(** X1. [Cancel] can be called at any time and any number of times: a
    second call changes nothing, a call with no session channel (nil)
    or with the channel already closed changes nothing, an open channel
    is closed, the channel is never open after a call, and a call
    touches no other field: the master peer, the peer table, the status,
    the task manager, the chain, the wait group, the events fired, the
    workers started, the requests sent, the connections closed and the
    connection counter are what they were. *)
Theorem Cancel_idempotent d :
  Cancel (Cancel d) = Cancel d ∧
  (cancelCh d ≠ ChOpen → Cancel d = d) ∧
  (cancelCh d = ChOpen → cancelCh (Cancel d) = ChClosed) ∧
  cancelCh (Cancel d) ≠ ChOpen ∧
  (cancelCh (Cancel d) = ChNil ↔ cancelCh d = ChNil) ∧
  masterPeer (Cancel d) = masterPeer d ∧ peers (Cancel d) = peers d ∧
  syncStatus (Cancel d) = syncStatus d ∧ tm (Cancel d) = tm d ∧
  chain (Cancel d) = chain d ∧ sessionWG (Cancel d) = sessionWG d ∧
  fired (Cancel d) = fired d ∧ spawned (Cancel d) = spawned d ∧
  sent (Cancel d) = sent d ∧ closedConns (Cancel d) = closedConns d ∧
  nextConn (Cancel d) = nextConn d.
Proof.
  split; [apply Cancel_id, Cancel_not_open|].
  split; [apply Cancel_id|].
  split; [intros Hopen; apply Cancel_closed; by rewrite Hopen|].
  split; [apply Cancel_not_open|].
  split; [apply Cancel_nil_iff|].
  apply Cancel_frame.
Qed.

(** ** The session, again *)

Lemma spawnWorkers_rest localTD t cs :
  ∀ d, let d' := spawnWorkers localTD t cs d in
       tm d' = tm d ∧ chain d' = chain d ∧ sent d' = sent d ∧
       closedConns d' = closedConns d ∧ nextConn d' = nextConn d.
Proof.
  induction cs as [|[id c] cs IH]; intros d; simpl; [done|].
  case_decide; [apply IH|].
  destruct (IH (spawn c (Some t) d)) as (-> & -> & -> & -> & ->). done.
Qed.

Lemma fetchHeight_script conn script d r rest d' :
  fetchHeight conn script d = Some (r, rest, d') → ∃ x, script = x :: rest.
Proof.
  unfold fetchHeight. simpl.
  destruct script as [|[e|e|[|h [|h' hs]]] script]; try case_decide;
    intros; simplify_eq; by eexists.
Qed.

Lemma fetchHeight_Err conn script d e rest d' :
  fetchHeight conn script d = Some (Err e, rest, d') →
  e = errInvalidPacketRecved ∨ e = errHashNotMatch ∨
  WaitErr e ∈ script ∨ DeserializeErr e ∈ script.
Proof.
  unfold fetchHeight. simpl.
  destruct script as [|[e0|e0|[|h [|h' hs]]] script]; try case_decide;
    intros; simplify_eq; eauto using list_elem_of_here.
Qed.

Lemma fetchHeight_Ok conn script d h rest d' :
  fetchHeight conn script d = Some (Ok h, rest, d') →
  script = Headers [h] :: rest ∧ hdrHash h = headHash (peer conn) ∧
  d' = send conn (ReqHeaders (headHash (peer conn)) 0 1 false) d.
Proof.
  unfold fetchHeight. simpl.
  destruct script as [|[e0|e0|[|h0 [|h' hs]]] script]; try case_decide;
    intros; by simplify_eq.
Qed.

(** What the body of [doSynchronise] leaves alone, whichever way it
    ends. *)
Lemma doSynchroniseBody_table conn head td localTD script d r d' :
  doSynchroniseBody conn head td localTD script d = Some (r, d') →
  peers d' = peers d ∧ masterPeer d' = masterPeer d ∧ chain d' = chain d ∧
  closedConns d' = closedConns d ∧ nextConn d' = nextConn d.
Proof.
  unfold doSynchroniseBody.
  destruct (fetchHeight conn script d) as [[[[latest|e] script1] d1]|] eqn:Hfetch; [| |done].
  - destruct (sentMore_frame _ _ (fetchHeight_sentMore _ _ _ _ _ _ Hfetch))
      as (_ & Hm1 & Hp1 & _ & _ & Hch1 & _ & _ & _ & Hcl1 & Hn1).
    destruct (findCommonAncestorHeight conn (Height latest) script1 d1)
      as [[[[ancestor|e] script2] d2]|] eqn:Hwalk; [| |done].
    + destruct (sentMore_frame _ _ (findCommonAncestorHeight_sentMore _ _ _ _ _ _ _ Hwalk))
        as (_ & Hm2 & Hp2 & _ & _ & Hch2 & _ & _ & _ & Hcl2 & Hn2).
      set (t := newTaskMgr (masterPeer d2) (u64 (ancestor + 1)) (Height latest)).
      set (started := startFetching localTD t (set_tm (Some t) d2)).
      assert (peers started = peers d ∧ masterPeer started = masterPeer d ∧
              chain started = chain d ∧ closedConns started = closedConns d ∧
              nextConn started = nextConn d) as (Hp & Hm & Hch & Hcl & Hn).
      { unfold started, startFetching.
        destruct (spawnWorkers_frame localTD t
                    (map_to_list (peers (set_syncStatus statusFetching (set_tm (Some t) d2))))
                    (set_syncStatus statusFetching (set_tm (Some t) d2)))
          as (_ & _ & -> & _ & ->).
        destruct (spawnWorkers_rest localTD t
                    (map_to_list (peers (set_syncStatus statusFetching (set_tm (Some t) d2))))
                    (set_syncStatus statusFetching (set_tm (Some t) d2)))
          as (_ & -> & _ & -> & ->).
        simpl. split_and!; congruence. }
      clearbody started.
      destruct (awaitWorkers t (spawned started)) as [t' cancelled].
      destruct (Cancel_frame started) as (Hcm & Hcp & _ & _ & Hcc & _ & _ & _ & _ & Hccl & Hcn).
      destruct (isDone (tm_close t')), cancelled; intros; simplify_eq; simpl;
        split_and!; congruence.
    + destruct (sentMore_frame _ _ (findCommonAncestorHeight_sentMore _ _ _ _ _ _ _ Hwalk))
        as (_ & Hm2 & Hp2 & _ & _ & Hch2 & _ & _ & _ & Hcl2 & Hn2).
      intros; simplify_eq. split_and!; congruence.
  - destruct (sentMore_frame _ _ (fetchHeight_sentMore _ _ _ _ _ _ Hfetch))
      as (_ & Hm1 & Hp1 & _ & _ & Hch1 & _ & _ & _ & Hcl1 & Hn1).
    intros; simplify_eq. done.
Qed.

(** X2. When the height probe or the ancestor walk fails, the session
    ends there: [doSynchronise] returns that error, fires
    [DownloaderStartEvent] and [DownloaderFailedEvent], starts no
    worker, installs no task manager, and leaves the status, the
    [WaitGroup], the cancellation channel and the peer table as they
    were. *)
Theorem doSynchronise_preparation_failure conn head td localTD script d e :
  (∃ rest d1,
     fetchHeight conn script (Fire DownloaderStartEvent d) = Some (Err e, rest, d1)) ∨
  (∃ latest script1 d1 rest d2,
     fetchHeight conn script (Fire DownloaderStartEvent d) = Some (Ok latest, script1, d1) ∧
     findCommonAncestorHeight conn (Height latest) script1 d1 = Some (Err e, rest, d2)) →
  ∃ d', doSynchronise conn head td localTD script d = Some (Some e, d') ∧
        fired d' = fired d ++ [DownloaderStartEvent; DownloaderFailedEvent] ∧
        spawned d' = spawned d ∧ tm d' = tm d ∧ syncStatus d' = syncStatus d ∧
        sessionWG d' = sessionWG d ∧ cancelCh d' = cancelCh d ∧ peers d' = peers d.
Proof.
  intros [(rest & d1 & Hfetch)|(latest & script1 & d1 & rest & d2 & Hfetch & Hwalk)].
  - destruct (sentMore_frame _ _ (fetchHeight_sentMore _ _ _ _ _ _ Hfetch))
      as (Hc & _ & Hp & Hs & Ht & _ & Hw & Hf & Hsp & _).
    exists (Fire DownloaderFailedEvent d1). split.
    { unfold doSynchronise, doSynchroniseBody. by rewrite Hfetch. }
    simpl in *. rewrite Hf, <- app_assoc. done.
  - destruct (sentMore_frame _ _ (fetchHeight_sentMore _ _ _ _ _ _ Hfetch))
      as (Hc & _ & Hp & Hs & Ht & _ & Hw & Hf & Hsp & _).
    destruct (sentMore_frame _ _ (findCommonAncestorHeight_sentMore _ _ _ _ _ _ _ Hwalk))
      as (Hc2 & _ & Hp2 & Hs2 & Ht2 & _ & Hw2 & Hf2 & Hsp2 & _).
    exists (Fire DownloaderFailedEvent d2). split.
    { unfold doSynchronise, doSynchroniseBody. by rewrite Hfetch, Hwalk. }
    simpl in *. rewrite Hf2, Hf, <- app_assoc. split_and!; [done | congruence..].
Qed.

(** X3. The errors a call of [Synchronise] can return: the two early
    ones, the two of the height probe, the two of the ancestor walk,
    [errSyncErr], an error of a wait or of the decoding of an answer of
    the master, or the error of the local store for the height of a
    header the master sent. *)
Theorem Synchronise_errors id head td localTD script d e d' :
  Synchronise id head td localTD script d = Some (Some e, d') →
  e = errIsSynchronising ∨ e = errPeerNotFound ∨
  e = errInvalidPacketRecved ∨ e = errHashNotMatch ∨
  e = errInvalidAncestor ∨ e = errMaxForkAncestor ∨ e = errSyncErr ∨
  WaitErr e ∈ script ∨ DeserializeErr e ∈ script ∨
  ∃ hs h, Headers hs ∈ script ∧ h ∈ hs ∧ GetBlockHash (chain d) (Height h) = Err e.
Proof.
  unfold Synchronise. case_decide as Hbusy; [intros; simplify_eq; by left|].
  simpl. destruct (peers d !! id) as [conn|]; [|intros; simplify_eq; right; by left].
  unfold doSynchronise, doSynchroniseBody.
  match goal with |- context [fetchHeight conn script ?d0] => set (d0' := d0) end.
  destruct (fetchHeight conn script d0') as [[[[latest|e0] script1] d1]|] eqn:Hfetch;
    [| |done].
  - destruct (fetchHeight_script _ _ _ _ _ _ Hfetch) as [x ->].
    assert (chain d1 = chain d) as Hchain
        by (by rewrite (sentMore_chain _ _ (fetchHeight_sentMore _ _ _ _ _ _ Hfetch))).
    destruct (findCommonAncestorHeight conn (Height latest) script1 d1)
      as [[[[ancestor|e0] script2] d2]|] eqn:Hwalk; [| |done].
    + destruct (awaitWorkers _ _) as [t' cancelled].
      destruct (isDone (tm_close t')); intros; simplify_eq. do 6 right. by left.
    + intros; simplify_eq. unfold findCommonAncestorHeight in Hwalk.
      case_decide; [done|].
      apply ancestorLoop_Err in Hwalk as [->|[->|[Hin|[Hin|(hs & h & Hin & Hh & Hget)]]]].
      * do 5 right. by left.
      * do 4 right. by left.
      * do 7 right. left. by apply list_elem_of_further.
      * do 8 right. left. by apply list_elem_of_further.
      * do 9 right. exists hs, h. rewrite <- Hchain.
        split; [by apply list_elem_of_further | done].
  - intros; simplify_eq.
    apply fetchHeight_Err in Hfetch as [->|[->|[Hin|Hin]]].
    + do 2 right. by left.
    + do 3 right. by left.
    + do 7 right. by left.
    + do 8 right. by left.
Qed.

(** X4. A call of [Synchronise] on an idle downloader leaves it idle
    when it returns, whatever the result: the status is [statusNone]
    again, the cancellation channel is not open (closed after
    [errPeerNotFound], nil after a session), the master is the peer
    named, and the peer table and its connections are untouched. *)
Theorem Synchronise_returns_idle id head td localTD script d r d' :
  syncStatus d = statusNone →
  Synchronise id head td localTD script d = Some (r, d') →
  syncStatus d' = statusNone ∧ cancelCh d' ≠ ChOpen ∧ masterPeer d' = id ∧
  peers d' = peers d ∧ closedConns d' = closedConns d ∧ nextConn d' = nextConn d ∧
  (cancelCh d' = ChClosed ↔ peers d !! id = None).
Proof.
  intros Hidle. unfold Synchronise. rewrite decide_False by (by intros []).
  simpl. destruct (peers d !! id) as [conn|] eqn:Hpeer.
  - unfold doSynchronise.
    destruct (doSynchroniseBody _ _ _ _ _ _) as [[[e|] d1]|] eqn:Hbody; [| |done];
      apply doSynchroniseBody_table in Hbody as (Hp & Hm & _ & Hcl & Hn);
      intros; simplify_eq; simpl in *; split_and!; try done;
      split; intros; done.
  - intros; simplify_eq. simpl. split_and!; done.
Qed.

(** ** The peer table, again *)

Lemma tableOk_ext d d' :
  peers d' = peers d → nextConn d' = nextConn d → tableOk d → tableOk d'.
Proof. unfold tableOk. intros -> ->. done. Qed.

Lemma Synchronise_table id head td localTD script d r d' :
  Synchronise id head td localTD script d = Some (r, d') →
  peers d' = peers d ∧ nextConn d' = nextConn d ∧ closedConns d' = closedConns d.
Proof.
  unfold Synchronise. case_decide; [by intros; simplify_eq|].
  simpl. destruct (peers d !! id) as [conn|]; [|by intros; simplify_eq].
  unfold doSynchronise.
  destruct (doSynchroniseBody _ _ _ _ _ _) as [[[e|] d1]|] eqn:Hbody; [| |done];
    apply doSynchroniseBody_table in Hbody as (Hp & _ & _ & Hcl & Hn);
    by intros; simplify_eq.
Qed.

Lemma RegisterPeer_peers id p d :
  peers (RegisterPeer id p d) = <[id := mkPeerConn (nextConn d) id p]> (peers d) ∧
  nextConn (RegisterPeer id p d) = S (nextConn d) ∧
  closedConns (RegisterPeer id p d) = closedConns d.
Proof. unfold RegisterPeer. simpl. by case_decide. Qed.

Lemma UnRegisterPeer_peers id d :
  peers (UnRegisterPeer id d) = delete id (peers d) ∧
  nextConn (UnRegisterPeer id d) = nextConn d.
Proof.
  unfold UnRegisterPeer. destruct (peers d !! id) eqn:E; simpl; [done|].
  by rewrite delete_id.
Qed.

Lemma tableOk_NewDownloader c : tableOk (NewDownloader c).
Proof. split; intros ??; simpl; by rewrite lookup_empty. Qed.

Lemma tableOk_RegisterPeer id p d : tableOk d → tableOk (RegisterPeer id p d).
Proof.
  intros [Hkey Hinj]. destruct (RegisterPeer_peers id p d) as (Hp & Hn & _).
  unfold tableOk. rewrite Hp, Hn. split.
  - intros i x. rewrite lookup_insert. case_decide as Hi.
    + intros [= <-]. simpl. split; [done | lia].
    + intros [? ?]%Hkey. split; [done | lia].
  - intros i1 i2 c1 c2. rewrite !lookup_insert.
    destruct (decide (id = i1)) as [<-|H1], (decide (id = i2)) as [<-|H2]; try done.
    + intros [= <-] [_ Hlt]%Hkey. simpl. lia.
    + intros [_ Hlt]%Hkey [= <-]. simpl. lia.
    + apply Hinj.
Qed.

Lemma tableOk_UnRegisterPeer id d : tableOk d → tableOk (UnRegisterPeer id d).
Proof.
  intros [Hkey Hinj]. destruct (UnRegisterPeer_peers id d) as (Hp & Hn).
  unfold tableOk. rewrite Hp, Hn. split.
  - intros i x [_ Hx]%lookup_delete_Some. by apply Hkey.
  - intros i1 i2 c1 c2 [_ H1]%lookup_delete_Some [_ H2]%lookup_delete_Some.
    by eapply Hinj.
Qed.

(** X5. The peer table stays well formed: in a new downloader, and
    after any of [RegisterPeer], [UnRegisterPeer], [Cancel],
    [Terminate] and [Synchronise], every connection of the table sits
    under its own [peerID], and no two entries hold the same
    connection. *)
Theorem tableOk_invariant c d id p head td localTD script r d' :
  tableOk (NewDownloader c) ∧
  (tableOk d →
     tableOk (RegisterPeer id p d) ∧ tableOk (UnRegisterPeer id d) ∧
     tableOk (Cancel d) ∧ tableOk (Terminate d) ∧
     (Synchronise id head td localTD script d = Some (r, d') → tableOk d')).
Proof.
  split; [apply tableOk_NewDownloader|].
  intros Hok. destruct (Cancel_frame d) as (_ & Hp & _ & _ & _ & _ & _ & _ & _ & _ & Hn).
  split_and!.
  - by apply tableOk_RegisterPeer.
  - by apply tableOk_UnRegisterPeer.
  - by apply (tableOk_ext d).
  - by apply (tableOk_ext d).
  - intros (Hp' & Hn' & _)%Synchronise_table. by apply (tableOk_ext d).
Qed.

(** X6. Registering a peer under an identifier that is already in the
    table replaces the connection by a new one, which no entry of the
    table held before, and does not close the connection it replaces;
    the other entries stay. *)
Theorem RegisterPeer_replaces id p d old :
  tableOk d → peers d !! id = Some old →
  let d' := RegisterPeer id p d in
  peers d' !! id = Some (mkPeerConn (nextConn d) id p) ∧
  (∀ i c, peers d !! i = Some c → connId c ≠ nextConn d) ∧
  closedConns d' = closedConns d ∧
  (∀ i, i ≠ id → peers d' !! i = peers d !! i) ∧
  dom (peers d') = dom (peers d).
Proof.
  intros [Hkey _] Hold d'. subst d'.
  destruct (RegisterPeer_peers id p d) as (-> & _ & ->). split_and!.
  - apply lookup_insert_eq.
  - intros i c [_ Hlt]%Hkey. lia.
  - done.
  - intros i Hne. by rewrite lookup_insert_ne.
  - by apply dom_insert_lookup_L.
Qed.

(** X7. [UnRegisterPeer] with an identifier that is not in the table
    changes nothing.  With one that is, it closes the connection stored
    there, that one only, and removes the entry; the other entries
    stay, no worker is started and the session is not cancelled.  A
    second call in a row changes nothing more. *)
Theorem UnRegisterPeer_closes id d :
  (peers d !! id = None → UnRegisterPeer id d = d) ∧
  (∀ c, peers d !! id = Some c →
        closedConns (UnRegisterPeer id d) = connId c :: closedConns d) ∧
  peers (UnRegisterPeer id d) !! id = None ∧
  (∀ i, i ≠ id → peers (UnRegisterPeer id d) !! i = peers d !! i) ∧
  UnRegisterPeer id (UnRegisterPeer id d) = UnRegisterPeer id d ∧
  spawned (UnRegisterPeer id d) = spawned d ∧
  cancelCh (UnRegisterPeer id d) = cancelCh d ∧
  syncStatus (UnRegisterPeer id d) = syncStatus d.
Proof.
  destruct (UnRegisterPeer_peers id d) as (Hp & _).
  assert (peers (UnRegisterPeer id d) !! id = None) as Hgone
      by (rewrite Hp; apply lookup_delete_eq).
  split_and!.
  - intros Hnone. unfold UnRegisterPeer. by rewrite Hnone.
  - intros c Hc. unfold UnRegisterPeer. by rewrite Hc.
  - done.
  - intros i Hne. rewrite Hp. by apply lookup_delete_ne.
  - unfold UnRegisterPeer at 1. by rewrite Hgone.
  - unfold UnRegisterPeer. by destruct (peers d !! id).
  - unfold UnRegisterPeer. by destruct (peers d !! id).
  - unfold UnRegisterPeer. by destruct (peers d !! id).
Qed.

(** X8. [DeliverMsg] hands a message to the connection registered under
    the identifier, with the message's own code, and to nobody when the
    identifier is not in the table.  After [RegisterPeer] that is the
    new connection, after [UnRegisterPeer] nobody; messages for other
    identifiers go where they went before. *)
Theorem DeliverMsg_routing id i p msg d :
  (peers d !! id = None → DeliverMsg id msg d = None) ∧
  (∀ c, peers d !! id = Some c → DeliverMsg id msg d = Some (c, Code msg, msg)) ∧
  DeliverMsg id msg (RegisterPeer id p d)
    = Some (mkPeerConn (nextConn d) id p, Code msg, msg) ∧
  DeliverMsg id msg (UnRegisterPeer id d) = None ∧
  (i ≠ id →
     DeliverMsg i msg (RegisterPeer id p d) = DeliverMsg i msg d ∧
     DeliverMsg i msg (UnRegisterPeer id d) = DeliverMsg i msg d) ∧
  (tableOk d → ∀ c code m, DeliverMsg id msg d = Some (c, code, m) → peerID c = id).
Proof.
  destruct (RegisterPeer_peers id p d) as (Hr & _).
  destruct (UnRegisterPeer_peers id d) as (Hu & _).
  unfold DeliverMsg. rewrite Hr, Hu. split_and!.
  - by intros ->.
  - by intros c ->.
  - by rewrite lookup_insert_eq.
  - by rewrite lookup_delete_eq.
  - intros Hne. by rewrite lookup_insert_ne, lookup_delete_ne.
  - intros [Hkey _] c code m. destruct (peers d !! id) as [c'|] eqn:Hc; [|done].
    intros [= <- _ _]. by apply Hkey in Hc as [? _].
Qed.

(** ** Terminate *)

(** The steps of a session do not read the [WaitGroup] counter. *)
Definition onWG (n : Z) {A : Type} (x : A * list response * Downloader)
  : A * list response * Downloader :=
  (x.1.1, x.1.2, set_sessionWG n x.2).

Lemma fetchHeight_wg conn script n d :
  fetchHeight conn script (set_sessionWG n d) = onWG n <$> fetchHeight conn script d.
Proof.
  unfold fetchHeight. simpl.
  destruct script as [|[e|e|[|h [|h' hs]]] script]; try case_decide; reflexivity.
Qed.

Lemma ancestorLoop_wg conn top mf n script :
  ∀ c d, ancestorLoop conn top mf c script (set_sessionWG n d)
         = onWG n <$> ancestorLoop conn top mf c script d.
Proof.
  induction script as [|r script IH]; intros c d; rewrite !ancestorLoop_unfold.
  - by case_decide.
  - case_decide; [done|]. cbv zeta. destruct r as [e|e|hs]; [done..|].
    case_decide; [done|]. simpl chain.
    destruct (compareHeaders (chain d) hs) as [[a|e]|]; [done..|].
    apply (IH _ (send conn _ d)).
Qed.

Lemma findCommonAncestorHeight_wg conn height n script d :
  findCommonAncestorHeight conn height script (set_sessionWG n d)
  = onWG n <$> findCommonAncestorHeight conn height script d.
Proof.
  unfold findCommonAncestorHeight. simpl chain. case_decide; [done|].
  apply ancestorLoop_wg.
Qed.

Lemma spawnWorkers_wg localTD t cs :
  ∀ n d, ∃ m, spawnWorkers localTD t cs (set_sessionWG n d)
              = set_sessionWG m (spawnWorkers localTD t cs d).
Proof.
  induction cs as [|[i c] cs IH]; intros n d; simpl; [by exists n|].
  case_decide; [apply IH|]. apply (IH (n + 1) (spawn c (Some t) d)).
Qed.

Lemma Cancel_wg n d : Cancel (set_sessionWG n d) = set_sessionWG n (Cancel d).
Proof. unfold Cancel. simpl. by destruct (cancelCh d). Qed.

Lemma doSynchroniseBody_wg conn head td localTD script n d :
  match doSynchroniseBody conn head td localTD script d with
  | None => doSynchroniseBody conn head td localTD script (set_sessionWG n d) = None
  | Some (r, d') =>
      ∃ m, doSynchroniseBody conn head td localTD script (set_sessionWG n d)
           = Some (r, set_sessionWG m d')
  end.
Proof.
  unfold doSynchroniseBody. rewrite fetchHeight_wg.
  destruct (fetchHeight conn script d) as [[[[latest|e] script1] d1]|]; simpl;
    [| by exists n | done].
  rewrite findCommonAncestorHeight_wg.
  destruct (findCommonAncestorHeight conn (Height latest) script1 d1)
    as [[[[ancestor|e] script2] d2]|]; simpl; [| by exists n | done].
  set (t := newTaskMgr (masterPeer d2) (u64 (ancestor + 1)) (Height latest)).
  unfold startFetching. simpl peers.
  destruct (spawnWorkers_wg localTD t (map_to_list (peers d2)) n
              (set_syncStatus statusFetching (set_tm (Some t) d2))) as [m Hm].
  change (set_syncStatus statusFetching (set_tm (Some t) (set_sessionWG n d2)))
    with (set_sessionWG n (set_syncStatus statusFetching (set_tm (Some t) d2))).
  rewrite Hm. simpl spawned.
  destruct (awaitWorkers t _) as [t' cancelled].
  destruct (isDone (tm_close t')), cancelled; exists 0; by rewrite ?Cancel_wg.
Qed.

(** X9. [Terminate] is [Cancel] followed by the wait for the session's
    workers, in any state: an open session channel is closed, a channel
    that is not open is left as it is, the wait group is at zero when
    the call returns, and no other field changes; in particular the
    status is what it was, so the call does not mark the downloader as
    terminated.  While a session is on, [Synchronise] after the call
    still answers [errIsSynchronising] and changes nothing.  With no
    session on, a later [Synchronise] with a registered master runs
    exactly as it would have without the call. *)
Theorem Terminate_then_Synchronise id head td localTD script d :
  (cancelCh d = ChOpen → cancelCh (Terminate d) = ChClosed) ∧
  (cancelCh d ≠ ChOpen → cancelCh (Terminate d) = cancelCh d) ∧
  sessionWG (Terminate d) = 0 ∧
  masterPeer (Terminate d) = masterPeer d ∧ peers (Terminate d) = peers d ∧
  syncStatus (Terminate d) = syncStatus d ∧ tm (Terminate d) = tm d ∧
  chain (Terminate d) = chain d ∧ fired (Terminate d) = fired d ∧
  spawned (Terminate d) = spawned d ∧ sent (Terminate d) = sent d ∧
  closedConns (Terminate d) = closedConns d ∧ nextConn (Terminate d) = nextConn d ∧
  (syncStatus d ≠ statusNone →
   Synchronise id head td localTD script (Terminate d)
   = Some (Some errIsSynchronising, Terminate d)) ∧
  (syncStatus d = statusNone → is_Some (peers d !! id) →
   Synchronise id head td localTD script (Terminate d)
   = Synchronise id head td localTD script d).
Proof.
  destruct (Cancel_frame d)
    as (Hm & Hp & Hs & Ht & Hc & _ & Hf & Hsp & Hsent & Hcl & Hn).
  split; [intros Hopen; apply (Cancel_closed d); by rewrite Hopen|].
  split; [intros Hid%Cancel_id; unfold Terminate; by rewrite Hid|].
  do 11 (split; [done|]).
  split.
  { intros Hbusy. unfold Synchronise. rewrite decide_True; [done|].
    unfold Terminate. simpl. by rewrite Hs. }
  intros Hidle [conn Hconn].
  unfold Synchronise, Terminate. simpl syncStatus. rewrite Hs.
  rewrite decide_False by (by intros []).
  cbv zeta. simpl peers. rewrite Hp, Hconn.
  set (d0 := set_masterPeer id (set_cancelCh ChOpen (set_syncStatus statusPreparing d))).
  assert (set_masterPeer id (set_cancelCh ChOpen (set_syncStatus statusPreparing
            (set_sessionWG 0 (Cancel d)))) = set_sessionWG 0 d0) as ->.
  { subst d0. unfold Cancel. by destruct (cancelCh d). }
  unfold doSynchronise.
  change (Fire DownloaderStartEvent (set_sessionWG 0 d0))
    with (set_sessionWG 0 (Fire DownloaderStartEvent d0)).
  pose proof (doSynchroniseBody_wg conn head td localTD script 0
                (Fire DownloaderStartEvent d0)) as Hwg.
  destruct (doSynchroniseBody conn head td localTD script (Fire DownloaderStartEvent d0))
    as [[[e|] d1]|].
  - destruct Hwg as [m ->]. by rewrite decide_False by (by intros []).
  - destruct Hwg as [m ->]. by rewrite decide_False by (by intros []).
  - rewrite Hwg. by rewrite decide_False by (by intros []).
Qed.

(** ** Workers, again *)

(** [d'] is [d] but for the cancellation channel and the requests
    sent. *)
Definition quiet (d d' : Downloader) : Prop :=
  masterPeer d' = masterPeer d ∧ peers d' = peers d ∧ syncStatus d' = syncStatus d ∧
  tm d' = tm d ∧ chain d' = chain d ∧ sessionWG d' = sessionWG d ∧
  fired d' = fired d ∧ spawned d' = spawned d ∧
  closedConns d' = closedConns d ∧ nextConn d' = nextConn d.

Lemma quiet_refl d : quiet d d.
Proof. by repeat split. Qed.

Lemma quiet_trans d1 d2 d3 : quiet d1 d2 → quiet d2 d3 → quiet d1 d3.
Proof.
  intros (?&?&?&?&?&?&?&?&?&?) (?&?&?&?&?&?&?&?&?&?). unfold quiet.
  split_and!; congruence.
Qed.

Lemma sentMore_quiet d d' : sentMore d d' → quiet d d'.
Proof. by intros [l ->]. Qed.

Lemma Cancel_quiet d : quiet d (Cancel d).
Proof. unfold Cancel. by destruct (cancelCh d). Qed.

(** A request a worker makes: to its own peer, for headers going up or
    for blocks, and for a positive number of them. *)
Definition ownRequest (conn : peerConn) (x : string * request) : Prop :=
  x.1 = peerID conn ∧
  ((∃ start amount, x.2 = ReqHeaders EmptyHash start amount false ∧ 0 < amount) ∨
   (∃ start amount, x.2 = ReqBlocks EmptyHash start amount ∧ 0 < amount)).

Lemma headerTurn_sent conn i t d b t' d' :
  headerTurn conn i t d = (b, t', d') →
  cancelCh d' = cancelCh d ∧
  ∃ l, sent d' = sent d ++ l ∧ Forall (ownRequest conn) l ∧ (length l ≤ 1)%nat.
Proof.
  unfold headerTurn. destruct (getReqHeaderInfo t conn) as [t1 [startNo amount]].
  assert (∀ d0, d0 = d →
            cancelCh d0 = cancelCh d ∧
            ∃ l, sent d0 = sent d ++ l ∧ Forall (ownRequest conn) l ∧ (length l ≤ 1)%nat) as Hsame.
  { intros ? ->. split; [done|]. exists []. rewrite app_nil_r. repeat split; [constructor | simpl; lia]. }
  case_decide as Hpos; [|intros; simplify_eq; by apply Hsame].
  assert (∀ d0, d0 = send conn (ReqHeaders EmptyHash startNo amount false) d →
            cancelCh d0 = cancelCh d ∧
            ∃ l, sent d0 = sent d ++ l ∧ Forall (ownRequest conn) l ∧ (length l ≤ 1)%nat) as Hsent.
  { intros ? ->. split; [done|]. eexists. split; [reflexivity|]. split; [|simpl; lia].
    constructor; [|constructor]. split; [done|]. left. by eexists _, _. }
  destruct (reqHeadersErr i); [intros; simplify_eq; by apply Hsent|].
  destruct (headersMsg i) as [e|e|hs]; [intros; simplify_eq; by apply Hsent..|].
  destruct (deliverHeaderMsg t1 (peerID conn) hs) as [t2 [e|]];
    intros; simplify_eq; by apply Hsent.
Qed.

Lemma blockTurn_sent conn i h t d b t' d' :
  blockTurn conn i h t d = (b, t', d') →
  cancelCh d' = cancelCh d ∧
  ∃ l, sent d' = sent d ++ l ∧ Forall (ownRequest conn) l ∧ (length l ≤ 1)%nat.
Proof.
  unfold blockTurn. destruct (getReqBlocks t conn) as [t1 [startNo amount]].
  assert (∀ d0, d0 = d →
            cancelCh d0 = cancelCh d ∧
            ∃ l, sent d0 = sent d ++ l ∧ Forall (ownRequest conn) l ∧ (length l ≤ 1)%nat) as Hsame.
  { intros ? ->. split; [done|]. exists []. rewrite app_nil_r. repeat split; [constructor | simpl; lia]. }
  case_decide as Hpos; [|intros; simplify_eq; by apply Hsame].
  assert (∀ d0, d0 = send conn (ReqBlocks EmptyHash startNo amount) d →
            cancelCh d0 = cancelCh d ∧
            ∃ l, sent d0 = sent d ++ l ∧ Forall (ownRequest conn) l ∧ (length l ≤ 1)%nat) as Hsent.
  { intros ? ->. split; [done|]. eexists. split; [reflexivity|]. split; [|simpl; lia].
    constructor; [|constructor]. split; [done|]. right. by eexists _, _. }
  destruct (reqBlocksErr i); [intros; simplify_eq; by apply Hsent|].
  destruct (blocksPreMsg i) as [nums|e]; [|intros; simplify_eq; by apply Hsent].
  destruct (blocksMsg i) as [blocks|e]; intros; simplify_eq; by apply Hsent.
Qed.

Lemma downloadLoop_effects conn script :
  ∀ t d why t' d',
    downloadLoop conn script t d = Some (why, t', d') →
    quiet d d' ∧
    (∃ l, sent d' = sent d ++ l ∧ Forall (ownRequest conn) l ∧
          (length l ≤ 2 * length script)%nat) ∧
    (Forall (λ i, envCancel i = false) script → cancelCh d' = cancelCh d).
Proof.
  assert (∀ d, quiet d d ∧
               (∃ l, sent d = sent d ++ l ∧ Forall (ownRequest conn) l ∧
                     (length l ≤ 0)%nat) ∧
               cancelCh d = cancelCh d) as Hstay.
  { intros d. split; [apply quiet_refl|]. split; [|done].
    exists []. rewrite app_nil_r. repeat split; [constructor | simpl; lia]. }
  induction script as [|i script IH]; intros t d why t' d'; simpl.
  - destruct (isDone t); [|done]. intros; simplify_eq.
    destruct (Hstay d') as (? & ? & ?). done.
  - destruct (isDone t).
    { intros; simplify_eq. destruct (Hstay d') as (? & (l & ? & ? & ?) & ?).
      split; [done|]. split; [|done]. exists l. repeat split; [done..|lia]. }
    set (d0 := if envCancel i then Cancel d else d).
    assert (quiet d d0 ∧ sent d0 = sent d ∧ (envCancel i = false → cancelCh d0 = cancelCh d))
      as (Hq0 & Hs0 & Hc0).
    { subst d0. destruct (envCancel i); [|by split; [apply quiet_refl|]].
      split; [apply Cancel_quiet|]. split; [|done]. by destruct (Cancel_frame d) as (_&_&_&_&_&_&_&_&->&_). }
    destruct (headerTurn conn i t d0) as [[b1 t1] d1] eqn:Hh.
    pose proof (sentMore_quiet _ _ (headerTurn_sentMore _ _ _ _ _ _ _ Hh)) as Hq1.
    apply headerTurn_sent in Hh as (Hc1 & l1 & Hs1 & Hl1 & Hn1).
    assert (quiet d d1 ∧
            (∃ l, sent d1 = sent d ++ l ∧ Forall (ownRequest conn) l ∧ (length l ≤ 1)%nat) ∧
            (envCancel i = false → cancelCh d1 = cancelCh d)) as (Hqa & Hsa & Hca).
    { split; [by eapply quiet_trans|]. split; [|intros; rewrite Hc1; auto].
      exists l1. by rewrite Hs1, Hs0. }
    destruct b1 as [h1|]; last first.
    { intros; simplify_eq. split; [done|]. destruct Hsa as (l & ? & ? & ?). split.
      - exists l. repeat split; [done..|lia].
      - intros [? _]%Forall_cons. auto. }
    destruct (blockTurn conn i h1 t1 d1) as [[b2 t2] d2] eqn:Hb.
    pose proof (sentMore_quiet _ _ (blockTurn_sentMore _ _ _ _ _ _ _ _ Hb)) as Hq2.
    apply blockTurn_sent in Hb as (Hc2 & l2 & Hs2 & Hl2 & Hn2).
    destruct Hsa as (la & Hsa & Hla & Hna).
    assert (quiet d d2 ∧
            (∃ l, sent d2 = sent d ++ l ∧ Forall (ownRequest conn) l ∧ (length l ≤ 2)%nat) ∧
            (envCancel i = false → cancelCh d2 = cancelCh d)) as (Hqb & Hsb & Hcb).
    { split; [by eapply quiet_trans|]. split; [|intros; rewrite Hc2; auto].
      exists (la ++ l2). rewrite Hs2, Hsa, <- app_assoc. repeat split; [|rewrite length_app; lia].
      by apply Forall_app. }
    assert (∀ why t' d',
              downloadLoop conn script t2 d2 = Some (why, t', d') →
              quiet d d' ∧
              (∃ l, sent d' = sent d ++ l ∧ Forall (ownRequest conn) l ∧
                    (length l ≤ 2 * S (length script))%nat) ∧
              (Forall (λ i, envCancel i = false) (i :: script) → cancelCh d' = cancelCh d))
      as Hnext.
    { intros why0 t0 d3 (Hq3 & (l3 & Hs3 & Hl3 & Hn3) & Hc3)%IH.
      destruct Hsb as (lb & Hsb & Hlb & Hnb).
      split; [by eapply quiet_trans|]. split.
      - exists (lb ++ l3). rewrite Hs3, Hsb, <- app_assoc.
        repeat split; [by apply Forall_app | rewrite length_app; lia].
      - intros [? ?]%Forall_cons. rewrite Hc3 by done. auto. }
    assert (∀ d', d' = d2 →
              quiet d d' ∧
              (∃ l, sent d' = sent d ++ l ∧ Forall (ownRequest conn) l ∧
                    (length l ≤ 2 * S (length script))%nat) ∧
              (Forall (λ i, envCancel i = false) (i :: script) → cancelCh d' = cancelCh d))
      as Hstop.
    { intros ? ->. destruct Hsb as (lb & Hsb & Hlb & Hnb). split; [done|]. split.
      - exists lb. repeat split; [done..|lia].
      - intros [? _]%Forall_cons. auto. }
    destruct b2 as [[|]|].
    + apply Hnext.
    + destruct (idleSelect i); [intros; simplify_eq; by apply Hstop..|]. apply Hnext.
    + intros; simplify_eq. by apply Hstop.
Qed.

(** X10. [peerDownload] does not cancel the session for a worker that
    is not the master's: unless [Cancel] is called from elsewhere while
    it runs (another goroutine, a callback of the task manager), the
    cancellation channel is on its return as it was at its start,
    whatever made it leave its loop. *)
Theorem other_worker_never_cancels conn t script d why t' d' :
  peerID conn ≠ masterPeer d →
  Forall (λ i, envCancel i = false) script →
  peerDownload conn t script d = Some (why, t', d') →
  cancelCh d' = cancelCh d.
Proof.
  intros Hother Hquiet. unfold peerDownload.
  rewrite bool_decide_eq_false_2 by done.
  destruct (downloadLoop conn script t d) as [[[why1 t1] d1]|] eqn:Hloop; [|done].
  intros ?; simplify_eq. simpl.
  apply downloadLoop_effects in Hloop as (_ & _ & Hc). auto.
Qed.

(** X11. A worker that returns has told the task manager that its peer
    quit, and has given back its place on the [WaitGroup], once.  It
    fires no event, starts no worker, and leaves the peer table, the
    status and the master's name alone. *)
Theorem worker_exit conn t script d why t' d' :
  peerDownload conn t script d = Some (why, t', d') →
  (∃ t0, t' = onPeerQuit t0 (peerID conn)) ∧
  sessionWG d' = sessionWG d - 1 ∧
  fired d' = fired d ∧ spawned d' = spawned d ∧ peers d' = peers d ∧
  syncStatus d' = syncStatus d ∧ masterPeer d' = masterPeer d.
Proof.
  unfold peerDownload.
  destruct (downloadLoop conn script t d) as [[[why1 t1] d1]|] eqn:Hloop; [|done].
  intros ?; simplify_eq.
  apply downloadLoop_effects in Hloop as ((Hm & Hp & Hs & _ & Hch & Hw & Hf & Hsp & _) & _).
  split; [by eexists|]. simpl.
  destruct (Cancel_frame d1) as (Hcm & Hcp & Hcs & _ & Hcc & Hcw & Hcf & Hcsp & _).
  destruct (bool_decide _); split_and!; congruence.
Qed.

(** X12. The requests of a worker: all to its own peer, each either
    for headers in ascending order or for blocks, each for a positive
    number of them, and at most two in a turn of the loop. *)
Theorem worker_requests conn t script d why t' d' :
  peerDownload conn t script d = Some (why, t', d') →
  ∃ l, sent d' = sent d ++ l ∧ Forall (ownRequest conn) l ∧
       (length l ≤ 2 * length script)%nat.
Proof.
  unfold peerDownload.
  destruct (downloadLoop conn script t d) as [[[why1 t1] d1]|] eqn:Hloop; [|done].
  intros ?; simplify_eq.
  apply downloadLoop_effects in Hloop as (_ & (l & Hs & Hl & Hn) & _).
  exists l. simpl. destruct (Cancel_frame d1) as (_&_&_&_&_&_&_&_&Hcs&_).
  destruct (bool_decide _); repeat split; congruence || done.
Qed.

Lemma spawnWorkers_sessionWG localTD t cs :
  ∀ d, sessionWG (spawnWorkers localTD t cs d)
       = sessionWG d + Z.of_nat (length (filter (ahead localTD) cs)).
Proof.
  induction cs as [|[id c] cs IH]; intros d; simpl; [lia|].
  case_decide as Htd.
  - rewrite filter_cons_False by (unfold ahead; simpl; lia). apply IH.
  - rewrite filter_cons_True by (unfold ahead; simpl; lia).
    rewrite IH. simpl. lia.
Qed.

(** X13. Every worker started is counted on the [WaitGroup]: across
    the start of the fetching phase and across [RegisterPeer] the
    counter grows by exactly the number of goroutines started.
    [RegisterPeer] starts one in [statusFetching] and none otherwise. *)
Theorem workers_counted localTD t id p d :
  sessionWG (startFetching localTD t d) - sessionWG d
  = Z.of_nat (length (spawned (startFetching localTD t d))) - Z.of_nat (length (spawned d)) ∧
  sessionWG (RegisterPeer id p d) - sessionWG d
  = Z.of_nat (length (spawned (RegisterPeer id p d))) - Z.of_nat (length (spawned d)) ∧
  (syncStatus d ≠ statusFetching →
   spawned (RegisterPeer id p d) = spawned d ∧ sessionWG (RegisterPeer id p d) = sessionWG d).
Proof.
  split_and!.
  - unfold startFetching. rewrite spawnWorkers_sessionWG, spawnWorkers_spawned.
    rewrite length_app, length_fmap. simpl. lia.
  - unfold RegisterPeer. simpl. case_decide; simpl; [|lia].
    rewrite length_app. simpl. lia.
  - intros Hother. unfold RegisterPeer. simpl. by rewrite decide_False.
Qed.

Lemma startFetching_registered localTD t d :
  tableOk d →
  ∃ ws, spawned (startFetching localTD t d) = spawned d ++ ws ∧
        NoDup ((λ w, peerID w.1) <$> ws) ∧
        Forall (λ w, peers d !! peerID w.1 = Some w.1 ∧
                     localTD < headTD (peer w.1) ∧ w.2 = Some t) ws.
Proof.
  intros [Hkey _]. unfold startFetching. simpl.
  set (chosen := filter (ahead localTD) (map_to_list (peers d))).
  exists ((λ kc, (kc.2, Some t)) <$> chosen).
  split; [by rewrite spawnWorkers_spawned|].
  assert (Forall (λ kc, peers d !! kc.1 = Some kc.2 ∧ peerID kc.2 = kc.1 ∧
                        localTD < headTD (peer kc.2)) chosen) as Hchosen.
  { apply Forall_forall. intros [i c] [Hahead Hin%elem_of_map_to_list]%list_elem_of_filter.
    simpl. split; [done|]. split; [|done]. by apply Hkey in Hin as [? _]. }
  split.
  - rewrite <- list_fmap_compose.
    assert ((λ w : peerConn * option taskMgr, peerID w.1) ∘ (λ kc, (kc.2, Some t)) <$> chosen
            = chosen.*1) as ->.
    { apply Forall_fmap_ext. eapply Forall_impl; [exact Hchosen|].
      intros [i c] (_ & Hid & _). done. }
    eapply sublist_NoDup; [apply (NoDup_fst_map_to_list (peers d))|].
    apply fmap_sublist, sublist_filter.
  - apply Forall_fmap. eapply Forall_impl; [exact Hchosen|].
    intros [i c] (Hin & Hid & Hahead). simpl in *. by rewrite Hid.
Qed.

(** X14. With a well-formed peer table, the workers started on entering
    the fetching phase are bound to connections of the table, each under
    its own identifier, to peers ahead of [localTD], and to the task
    manager of the session; no two of them have the same peer
    identifier, so at most one is the master's. *)
Theorem workers_are_registered localTD t d :
  tableOk d →
  ∃ ws, spawned (startFetching localTD t d) = spawned d ++ ws ∧
        NoDup ((λ w, peerID w.1) <$> ws) ∧
        Forall (λ w, peers d !! peerID w.1 = Some w.1 ∧
                     localTD < headTD (peer w.1) ∧ w.2 = Some t) ws.
Proof. apply startFetching_registered. Qed.

(** X15. A peer unregistered before the fetching phase starts gets no
    worker: none of the workers then started carries its identifier. *)
Theorem unregistered_peer_not_started localTD t id d :
  tableOk d →
  ∃ ws, spawned (startFetching localTD t (UnRegisterPeer id d)) = spawned d ++ ws ∧
        Forall (λ w, peerID w.1 ≠ id) ws.
Proof.
  intros Hok.
  assert (tableOk (UnRegisterPeer id d)) as Hok' by by apply tableOk_UnRegisterPeer.
  destruct (startFetching_registered localTD t _ Hok') as (ws & Hws & _ & Hall).
  exists ws. split.
  - rewrite Hws. f_equal. unfold UnRegisterPeer. by destruct (peers d !! id).
  - eapply Forall_impl; [exact Hall|]. intros w (Hin & _) Heq.
    destruct (UnRegisterPeer_peers id d) as (Hp & _).
    rewrite Hp, Heq, lookup_delete_eq in Hin. done.
Qed.

(** X16. In a session that got through its preparation, the height [H]
    is that of a header whose hash is the head the master advertised,
    and all the workers the session starts work on one task manager,
    made for the master and the heights from [ancestor + 1] to [H]. *)
Theorem session_task_range conn head td localTD script d latest script1 d1
    ancestor script2 d2 :
  fetchHeight conn script (Fire DownloaderStartEvent d) = Some (Ok latest, script1, d1) →
  findCommonAncestorHeight conn (Height latest) script1 d1 = Some (Ok ancestor, script2, d2) →
  hdrHash latest = headHash (peer conn) ∧
  ∃ r d' ws,
    doSynchronise conn head td localTD script d = Some (r, d') ∧
    spawned d' = spawned d ++ ws ∧
    Forall (λ w, w.2 = Some (newTaskMgr (masterPeer d) (u64 (ancestor + 1)) (Height latest)))
           ws.
Proof.
  intros Hfetch Hwalk.
  destruct (fetchHeight_Ok _ _ _ _ _ _ Hfetch) as (_ & Hhash & _).
  split; [done|].
  destruct (doSynchronise_workers conn head td localTD _ _ _ _ _ _ _ _ Hfetch Hwalk)
    as (_ & _ & r & d' & Hdo & Hsp).
  destruct (sentMore_frame _ _ (fetchHeight_sentMore _ _ _ _ _ _ Hfetch))
    as (_ & Hm1 & _ & _ & _ & _ & _ & _ & Hsp1 & _).
  destruct (sentMore_frame _ _ (findCommonAncestorHeight_sentMore _ _ _ _ _ _ _ Hwalk))
    as (_ & Hm2 & _ & _ & _ & _ & _ & _ & Hsp2 & _).
  simpl in Hm1, Hsp1.
  eexists r, d', _. split; [exact Hdo|]. rewrite Hsp. unfold startFetching.
  rewrite spawnWorkers_spawned. simpl. rewrite Hsp2, Hsp1, Hm2, Hm1.
  split; [reflexivity|]. apply Forall_fmap, Forall_forall. done.
Qed.

(** ** Writing blocks, again *)

Lemma writeBlocks_chain headInfos :
  ∀ heap written0 d heap' written d',
    writeBlocks headInfos heap written0 d = (heap', written, d') →
    ∃ log,
      written = written0 ++ log ∧ (length log ≤ length headInfos)%nat ∧
      chain d' = chainAfter (chain d) log.*1 ∧
      (∀ k b err, log !! k = Some (b, err) →
                  err = (WriteBlock (chainAfter (chain d) (take k log).*1) b).2) ∧
      peers d' = peers d ∧ syncStatus d' = syncStatus d ∧ fired d' = fired d ∧
      spawned d' = spawned d ∧ sessionWG d' = sessionWG d ∧ sent d' = sent d.
Proof.
  induction headInfos as [|h headInfos IH]; intros heap written0 d heap' written d'; simpl.
  - intros ?; simplify_eq. exists []. rewrite app_nil_r. split_and!; done.
  - destruct (WriteBlock (chain d) (block (heap h))) as [c err] eqn:Hw.
    destruct (fatal err).
    + intros [= <- <- <-]. exists [(block (heap h), err)].
      destruct (Cancel_frame (set_chain c d)) as (_ & Hp & Hs & _ & Hc & Hwg & Hf & Hsp & Hse & _).
      split_and!; try done.
      * simpl. lia.
      * simpl. by rewrite Hw.
      * intros [|k] b e; [|done]. intros [= <- <-]. simpl. by rewrite Hw.
    + intros (log & -> & Hlen & Hchain & Hlog & Hp & Hs & Hf & Hsp & Hwg & Hse)%IH.
      exists ((block (heap h), err) :: log). split_and!; try done.
      * by rewrite <- app_assoc.
      * simpl. lia.
      * simpl. by rewrite Hw.
      * intros [|k] b e.
        -- intros [= <- <-]. simpl. by rewrite Hw.
        -- simpl. rewrite Hw. apply Hlog.
Qed.

(** The calls of [WriteBlock] follow the head infos one for one, from
    the first on, and only the last call can have failed for good. *)
Lemma writeBlocks_order headInfos :
  ∀ heap written0 d heap' written d',
    writeBlocks headInfos heap written0 d = (heap', written, d') →
    ∃ log,
      written = written0 ++ log ∧
      log.*1 = (λ h, block (heap h)) <$> take (length log) headInfos ∧
      (∀ k b err, log !! k = Some (b, err) → fatal err = true → S k = length log) ∧
      (length log = length headInfos ∨
       ∃ b err, last log = Some (b, err) ∧ fatal err = true) ∧
      masterPeer d' = masterPeer d ∧ tm d' = tm d ∧
      closedConns d' = closedConns d ∧ nextConn d' = nextConn d.
Proof.
  induction headInfos as [|h headInfos IH]; intros heap written0 d heap' written d'; simpl.
  - intros ?; simplify_eq. exists []. rewrite app_nil_r. split_and!; try done. by left.
  - destruct (WriteBlock (chain d) (block (heap h))) as [c err] eqn:Hw.
    destruct (fatal err) eqn:Hfatal.
    + intros [= <- <- <-]. exists [(block (heap h), err)].
      destruct (Cancel_frame (set_chain c d)) as (Hm & _ & _ & Ht & _ & _ & _ & _ & _ & Hcl & Hn).
      split_and!; try done.
      * by intros [|k] b e.
      * right. by exists (block (heap h)), err.
    + intros (log & -> & Hblocks & Hlast & Hall & Hm & Ht & Hcl & Hn)%IH.
      exists ((block (heap h), err) :: log). split_and!; try done.
      * by rewrite <- app_assoc.
      * cbn [length take]. rewrite !fmap_cons. cbn [fst]. f_equal.
        rewrite Hblocks. apply list_fmap_ext.
        intros _ p _. unfold setProcessed. case_decide; by subst.
      * intros [|k] b e; simpl.
        -- intros [= <- <-]. congruence.
        -- intros Hk He. f_equal. by eapply Hlast.
      * destruct Hall as [Hlen|(b & e & Hb & He)].
        -- left. simpl. by rewrite Hlen.
        -- right. exists b, e. split; [|done]. by destruct log.
Qed.

(** X17. [processBlocks] calls [WriteBlock] once for each head info of
    the run, in the order of the run and from the first on, with the
    block that head info holds, each on the chain the call before it
    left, and every result recorded is the one [WriteBlock] gave there.
    Only the last call can have failed with an error other than
    [ErrBlockAlreadyExist], and when the calls are fewer than the head
    infos it did.  The downloader ends with the chain after all these
    calls, the failing one included; no request is sent, and nothing
    but the chain and the cancellation channel changes. *)
Theorem processBlocks_chain headInfos heap d heap' written d' :
  processBlocks headInfos heap d = (heap', written, d') →
  (length written ≤ length headInfos)%nat ∧
  written.*1 = (λ h, block (heap h)) <$> take (length written) headInfos ∧
  (∀ k b err, written !! k = Some (b, err) →
              err = (WriteBlock (chainAfter (chain d) (take k written).*1) b).2 ∧
              ((S k < length written)%nat →
               err = None ∨ err = Some ErrBlockAlreadyExist)) ∧
  (length written = length headInfos ∨
   ∃ b e, last written = Some (b, Some e) ∧ e ≠ ErrBlockAlreadyExist) ∧
  chain d' = chainAfter (chain d) written.*1 ∧
  masterPeer d' = masterPeer d ∧ peers d' = peers d ∧ syncStatus d' = syncStatus d ∧
  tm d' = tm d ∧ sessionWG d' = sessionWG d ∧ fired d' = fired d ∧
  spawned d' = spawned d ∧ sent d' = sent d ∧
  closedConns d' = closedConns d ∧ nextConn d' = nextConn d.
Proof.
  unfold processBlocks. intros Hrun.
  destruct (writeBlocks_chain _ _ _ _ _ _ _ Hrun)
    as (log & -> & Hlen & Hchain & Hres & Hp & Hs & Hf & Hsp & Hwg & Hse).
  destruct (writeBlocks_order _ _ _ _ _ _ _ Hrun)
    as (log' & Heq & Hblocks & Hlast & Hall & Hm & Ht & Hcl & Hn).
  simpl in Heq. subst log'. simpl.
  split_and!; try done.
  - intros k b err Hk. split; [by apply Hres|].
    intros Hlt. apply fatal_false.
    destruct (fatal err) eqn:Hfatal; [|done].
    specialize (Hlast k b err Hk Hfatal). lia.
  - destruct Hall as [?|(b & err & Hb & (e & -> & He)%fatal_true)]; [by left|].
    right. by exists b, e.
Qed.

(** ** The ancestor walk with an honest peer *)

Lemma ancestorLoop_honest_returns conn top mf script :
  ∀ c d,
    0 ≤ c ≤ mf → mf < 2 ^ 63 → honest mf c script →
    mf - c ≤ Z.of_nat (length script) →
    is_Some (ancestorLoop conn top mf c script d).
Proof.
  induction script as [|r script IH]; intros c d Hc Hmf Hhonest Hlen;
    rewrite ancestorLoop_unfold, fetchCountOf_small by done.
  - simpl in Hlen. rewrite decide_True; [done|]. unfold MaxHeaderFetch. lia.
  - case_decide as Hfc; [done|]. cbv zeta.
    destruct r as [e|e|hs]; [done..|].
    case_decide as Hhs; [done|].
    destruct (compareHeaders _ hs) as [[a|e]|]; [done..|].
    destruct Hhonest as [Hfit Hhonest]. rewrite fetchCountOf_small in Hfit by done.
    simpl in Hlen.
    rewrite int_small by lia. apply IH; [lia | done | done | lia].
Qed.

(** X18. With a peer that never sends more headers than it was asked
    for, the ancestor walk comes to an end: [maxFetchAncestry] answers
    are enough for it to return, with a height or with an error. *)
Theorem honest_walk_returns conn height script d :
  let localHeight := Height (Header (CurrentBlock (chain d))) in
  let top := Z.min localHeight height in
  0 ≤ localHeight < 2 ^ 64 → 0 ≤ height < 2 ^ 64 →
  honest (Z.min MaxForkAncestry (top + 1)) 0 script →
  Z.min MaxForkAncestry (top + 1) ≤ Z.of_nat (length script) →
  is_Some (findCommonAncestorHeight conn height script d).
Proof.
  intros localHeight top Hlocal Hheight Hhonest Hlen.
  unfold findCommonAncestorHeight. fold localHeight. rewrite topOf_min. fold top.
  case_decide; [done|].
  rewrite maxFetchAncestryOf_min by (unfold top; lia).
  apply ancestorLoop_honest_returns; [unfold MaxForkAncestry, top; lia.. | done | lia].
Qed.

Lemma ancestorLoop_honest_requests conn top mf script :
  ∀ c d r rest d',
    0 ≤ c ≤ mf → mf ≤ top + 1 → top < 2 ^ 64 → mf < 2 ^ 63 →
    honest mf c script →
    ancestorLoop conn top mf c script d = Some (r, rest, d') →
    ∃ l, sent d' = sent d ++ l ∧ Forall (walkRequest conn top (top + 1 - mf)) l ∧
         Z.of_nat (length l) ≤ mf - c.
Proof.
  induction script as [|x script IH]; intros c d r rest d' Hc Hmf Htop Hmf' Hhonest;
    rewrite ancestorLoop_unfold, fetchCountOf_small by done.
  - case_decide; [|done]. intros; simplify_eq. exists [].
    rewrite app_nil_r. repeat split; [constructor | simpl; lia].
  - case_decide as Hfc.
    { intros; simplify_eq. exists []. rewrite app_nil_r.
      repeat split; [constructor | simpl; lia]. }
    cbv zeta.
    assert (c < mf) as Hlt by (unfold MaxHeaderFetch in Hfc; lia).
    assert (walkRequest conn top (top + 1 - mf)
              (peerID conn, ReqHeaders EmptyHash (u64 (top - u64 c))
                              (Z.min MaxHeaderFetch (mf - c)) true)) as Hreq.
    { rewrite u64_sub_u64, u64_small by lia.
      eexists _, _. split; [reflexivity|]. unfold MaxHeaderFetch. lia. }
    assert (∀ d0, d0 = send conn (ReqHeaders EmptyHash (u64 (top - u64 c))
                                    (Z.min MaxHeaderFetch (mf - c)) true) d →
              ∃ l, sent d0 = sent d ++ l ∧ Forall (walkRequest conn top (top + 1 - mf)) l ∧
                   Z.of_nat (length l) ≤ mf - c) as Hone.
    { intros ? ->. eexists. split; [reflexivity|]. split; [|simpl; lia].
      constructor; [done | constructor]. }
    destruct x as [e|e|hs]; [intros; simplify_eq; by apply Hone..|].
    case_decide as Hhs; [intros; simplify_eq; by apply Hone|].
    destruct (compareHeaders _ hs) as [[a|e]|]; [intros; simplify_eq; by apply Hone..|].
    destruct Hhonest as [Hfit Hhonest]. rewrite fetchCountOf_small in Hfit by done.
    rewrite int_small by lia.
    intros (l & Hs & Hl & Hn)%IH; [|lia | done.. ].
    exists ((peerID conn, ReqHeaders EmptyHash (u64 (top - u64 c))
                            (Z.min MaxHeaderFetch (mf - c)) true) :: l).
    split; [|split].
    + rewrite Hs. simpl. by rewrite <- app_assoc.
    + by constructor.
    + simpl length. lia.
Qed.

(** X19. With a peer that never sends more headers than it was asked
    for, the requests of the ancestor walk stay within the chain and
    within the fork limit: each asks, in reverse order, for between 1
    and [MaxHeaderFetch] headers from a height that is at most [top],
    none reaches below height 0 nor below
    [top + 1 - maxFetchAncestry], and there are at most
    [maxFetchAncestry] of them. *)
Theorem honest_walk_requests conn height script d r rest d' :
  let localHeight := Height (Header (CurrentBlock (chain d))) in
  let top := Z.min localHeight height in
  let maxFetchAncestry := Z.min MaxForkAncestry (top + 1) in
  0 ≤ localHeight < 2 ^ 64 → 0 ≤ height < 2 ^ 64 →
  honest maxFetchAncestry 0 script →
  findCommonAncestorHeight conn height script d = Some (r, rest, d') →
  ∃ l, sent d' = sent d ++ l ∧
       Forall (walkRequest conn top (Z.max 0 (top + 1 - MaxForkAncestry))) l ∧
       Z.of_nat (length l) ≤ maxFetchAncestry.
Proof.
  intros localHeight top mf Hlocal Hheight Hhonest.
  unfold findCommonAncestorHeight. fold localHeight. rewrite topOf_min. fold top.
  case_decide.
  - intros; simplify_eq. exists []. rewrite app_nil_r.
    repeat split; [constructor | unfold mf, MaxForkAncestry; simpl; lia].
  - rewrite maxFetchAncestryOf_min by (unfold top; lia). fold mf.
    intros (l & Hs & Hl & Hn)%ancestorLoop_honest_requests;
      [| unfold mf, MaxForkAncestry, top; lia.. | done].
    exists l. split; [done|]. split; [|lia].
    eapply Forall_impl; [exact Hl|]. intros x (start & amount & -> & ? & ? & ?).
    eexists _, _. split; [reflexivity|]. unfold mf, MaxForkAncestry in *. lia.
Qed.

(** ** The ancestor walk with a peer that serves its chain *)

Lemma compareHeaders_descending c remote a :
  (∀ h, Height (remote h) = h) →
  GetBlockHash c a = Ok (hdrHash (remote a)) →
  ∀ n start,
    a ≤ start → (∀ h, a < h ≤ start → differs c (remote h)) →
    compareHeaders c (descending remote start n)
    = if decide (start - Z.of_nat n < a) then Some (Ok a) else None.
Proof.
  intros Hheight Ha. induction n as [|n IH]; intros start Hstart Hdiff.
  - simpl. by rewrite decide_False by lia.
  - simpl descending. simpl compareHeaders. rewrite Hheight.
    destruct (decide (start = a)) as [->|Hne].
    + rewrite Ha, decide_True by done. by rewrite decide_True by lia.
    + destruct (Hdiff start) as (lh & Hget & Hlh); [lia|].
      rewrite Hheight in Hget. rewrite Hget, decide_False by done.
      rewrite IH by (try lia; intros; apply Hdiff; lia).
      destruct (decide (start - 1 - Z.of_nat n < a)).
      * by rewrite decide_True by lia.
      * by rewrite decide_False by lia.
Qed.

Lemma ancestorLoop_faithful conn top mf remote a rest k :
  ∀ c d,
    (∀ h, Height (remote h) = h) →
    GetBlockHash (chain d) a = Ok (hdrHash (remote a)) →
    (∀ h, a < h ≤ top → differs (chain d) (remote h)) →
    0 ≤ a → 0 ≤ c ≤ top - a → top - a < mf → mf < 2 ^ 63 →
    top - a - c < 256 * Z.of_nat k →
    ∃ rest' d', ancestorLoop conn top mf c (faithfulAnswers remote top mf c k ++ rest) d
                = Some (Ok a, rest', d').
Proof.
  induction k as [|k IH]; intros c d Hheight Ha Hdiff Ha0 Hc Hfork Hmf Hk; [lia|].
  simpl faithfulAnswers. rewrite fetchCountOf_small by lia.
  set (amount := Z.min MaxHeaderFetch (mf - c)).
  assert (1 ≤ amount ≤ 256) as Hamount by (unfold amount, MaxHeaderFetch; lia).
  simpl app. rewrite ancestorLoop_unfold, fetchCountOf_small by lia. fold amount.
  rewrite decide_False by lia. cbv zeta.
  rewrite decide_False; last first.
  { destruct (Z.to_nat amount) eqn:E; [lia | done]. }
  simpl chain.
  rewrite (compareHeaders_descending _ remote a) by (try done; try lia; intros; apply Hdiff; lia).
  rewrite Z2Nat.id by lia.
  case_decide as Hin; [by eexists _, _|].
  assert (amount = 256) as Hfull by (unfold amount, MaxHeaderFetch in *; lia).
  assert (length (descending remote (top - c) (Z.to_nat amount)) = Z.to_nat amount) as ->.
  { generalize (top - c). induction (Z.to_nat amount) as [|m IHm]; intros z; simpl; [done|].
    by rewrite IHm. }
  rewrite Z2Nat.id, int_small by lia.
  apply (IH (c + amount) (send conn _ d)); try done; lia.
Qed.

(** X21. Ancestor discovery finds the greatest common height.  When
    the master serves its chain faithfully, the local chain has the
    master's block at height [a], differs from the master's at every
    height above [a] up to [top], and [a] is less than
    [maxFetchAncestry] below [top], the walk returns [a], after at
    most one answer for each [MaxHeaderFetch] heights between [a] and
    [top]. *)
Theorem faithful_walk_finds_ancestor conn height d remote a k rest :
  let localHeight := Height (Header (CurrentBlock (chain d))) in
  let top := Z.min localHeight height in
  let maxFetchAncestry := Z.min MaxForkAncestry (top + 1) in
  0 ≤ localHeight < 2 ^ 64 → 0 ≤ height < 2 ^ 64 → top ≠ 0 →
  (∀ h, Height (remote h) = h) →
  0 ≤ a ≤ top → top - a < maxFetchAncestry →
  GetBlockHash (chain d) a = Ok (hdrHash (remote a)) →
  (∀ h, a < h ≤ top → differs (chain d) (remote h)) →
  top - a < MaxHeaderFetch * Z.of_nat k →
  ∃ rest' d',
    findCommonAncestorHeight conn height
      (faithfulAnswers remote top maxFetchAncestry 0 k ++ rest) d
    = Some (Ok a, rest', d').
Proof.
  intros localHeight top mf Hlocal Hheight Htop Hremote Ha Hfork Hagree Hdiff Hk.
  unfold findCommonAncestorHeight. fold localHeight. rewrite topOf_min. fold top.
  rewrite decide_False by done.
  rewrite maxFetchAncestryOf_min by (unfold top; lia). fold mf.
  apply ancestorLoop_faithful; try done; try lia.
  - unfold mf, MaxForkAncestry. lia.
  - unfold MaxHeaderFetch in Hk. lia.
Qed.

Lemma descending_differs c remote :
  ∀ n start,
    (∀ h, start - Z.of_nat n < h ≤ start → differs c (remote h)) →
    Forall (differs c) (descending remote start n).
Proof.
  induction n as [|n IH]; intros start Hdiff; simpl; constructor.
  - apply Hdiff. lia.
  - apply IH. intros h Hh. apply Hdiff. lia.
Qed.

Lemma descending_length remote n : ∀ start, length (descending remote start n) = n.
Proof. induction n as [|n IH]; intros start; simpl; [done|]. by rewrite IH. Qed.

Lemma ancestorLoop_faithful_deep conn top mf remote rest k :
  ∀ c d,
    (∀ h, top + 1 - mf ≤ h ≤ top → differs (chain d) (remote h)) →
    0 ≤ c ≤ mf → mf < 2 ^ 63 →
    mf - c ≤ 256 * Z.of_nat k →
    ∃ rest' d', ancestorLoop conn top mf c (faithfulAnswers remote top mf c k ++ rest) d
                = Some (Err errMaxForkAncestor, rest', d').
Proof.
  induction k as [|k IH]; intros c d Hdiff Hc Hmf Hk;
    rewrite ancestorLoop_unfold, fetchCountOf_small by lia.
  - rewrite decide_True by (unfold MaxHeaderFetch; lia). by eexists _, _.
  - case_decide as Hfc; [by eexists _, _|].
    simpl faithfulAnswers. rewrite fetchCountOf_small by lia.
    set (amount := Z.min MaxHeaderFetch (mf - c)) in *.
    assert (1 ≤ amount ≤ 256 ∧ amount ≤ mf - c) as [Hamount Hfit]
        by (unfold amount, MaxHeaderFetch in *; lia).
    simpl app. cbv beta iota zeta.
    rewrite descending_length.
    rewrite decide_False by lia. simpl chain.
    assert (compareHeaders (chain d) (descending remote (top - c) (Z.to_nat amount)) = None)
      as ->.
    { apply compareHeaders_None, descending_differs. intros h Hh. apply Hdiff. lia. }
    rewrite Z2Nat.id, int_small by lia.
    apply (IH (c + amount) (send conn _ d)); [done | lia | done |].
    unfold amount, MaxHeaderFetch in *. lia.
Qed.

(** X22. A fork deeper than the limit is reported, when there is a
    walk.  With [top = min(localHeight, H)] not 0, a master that serves
    its chain faithfully, and a local chain that differs from it at
    every one of the [maxFetchAncestry] heights from [top] down, the
    walk fails with [errMaxForkAncestor], after at most one answer for
    each [MaxHeaderFetch] of those heights.  With [top] 0 there is no
    walk: the function answers 0 with no error, whatever the genesis
    blocks are, and reads none of the answers. *)
Theorem faithful_walk_fork_too_deep conn height d remote k rest :
  let localHeight := Height (Header (CurrentBlock (chain d))) in
  let top := Z.min localHeight height in
  let maxFetchAncestry := Z.min MaxForkAncestry (top + 1) in
  0 ≤ localHeight < 2 ^ 64 → 0 ≤ height < 2 ^ 64 →
  (∀ h, top + 1 - maxFetchAncestry ≤ h ≤ top → differs (chain d) (remote h)) →
  maxFetchAncestry ≤ MaxHeaderFetch * Z.of_nat k →
  (top ≠ 0 →
   ∃ rest' d',
     findCommonAncestorHeight conn height
       (faithfulAnswers remote top maxFetchAncestry 0 k ++ rest) d
     = Some (Err errMaxForkAncestor, rest', d')) ∧
  (top = 0 →
   findCommonAncestorHeight conn height
     (faithfulAnswers remote top maxFetchAncestry 0 k ++ rest) d
   = Some (Ok 0, faithfulAnswers remote top maxFetchAncestry 0 k ++ rest, d)).
Proof.
  intros localHeight top mf Hlocal Hheight Hdiff Hk.
  unfold findCommonAncestorHeight. fold localHeight. rewrite topOf_min. fold top.
  split.
  - intros Htop. rewrite decide_False by done.
    rewrite maxFetchAncestryOf_min by (unfold top; lia). fold mf.
    apply ancestorLoop_faithful_deep; [done | | |].
    + unfold mf, MaxForkAncestry, top. lia.
    + unfold mf, MaxForkAncestry. lia.
    + unfold MaxHeaderFetch in Hk. lia.
  - intros Htop. rewrite decide_True by done. by rewrite Htop.
Qed.

End Downloader.

(** * A small instance

    An in-memory chain and a task manager that only counts the blocks
    left, to run the definitions on concrete sessions. *)

(** The chain as the list of its block hashes, by height. *)
Definition memChain : Type := list Hash.

Definition memCurrentBlock (c : memChain) : Block :=
  let height := Z.of_nat (length c) - 1 in
  let hash := default EmptyHash (last c) in
  mkBlock hash (mkHeader (default EmptyHash (c !! (Z.to_nat (height - 1)))) height hash).

Definition memGetBlockHash (c : memChain) (height : Z) : result Hash :=
  match c !! Z.to_nat height with
  | Some hash => Ok hash
  | None => Err (errExternal "leveldb: not found")
  end.

Definition memWriteBlock (c : memChain) (b : Block) : memChain * option error :=
  let height := Z.to_nat (Height (Header b)) in
  if decide (c !! height = Some (HeaderHash b)) then (c, Some ErrBlockAlreadyExist)
  else if decide (c !! pred height = Some (PreviousBlockHash (Header b)))
       then (take height c ++ [HeaderHash b], None)
       else (c, Some (errExternal "invalid previous block")).

(** The task manager as the number of blocks not yet processed, and
    whether some worker has them reserved. *)
Definition countTm : Type := nat * bool.

Definition countNew (master : string) (from to : Z) : countTm :=
  (Z.to_nat (to - from + 1), false).
Definition countClose (t : countTm) : countTm := t.
Definition countIsDone (t : countTm) : bool := bool_decide (t.1 = 0%nat).
Definition countReqHeaders (t : countTm) (c : peerConn) : countTm * (Z * Z) := (t, (0, 0)).
Definition countReqBlocks (t : countTm) (c : peerConn) : countTm * (Z * Z) :=
  if t.2 then (t, (0, 0))
  else ((t.1, true), (1, Z.min MaxBlockFetch (Z.of_nat t.1))).
Definition countDeliverHeaders (t : countTm) (id : string) (hs : list BlockHeader)
  : countTm * option error := (t, None).
Definition countDeliverPre (t : countTm) (id : string) (nums : list Z) : countTm := t.
Definition countDeliverBlocks (t : countTm) (id : string) (bs : list Block) : countTm :=
  ((t.1 - length bs)%nat, false).
Definition countPeerQuit (t : countTm) (id : string) : countTm := (t.1, false).

(** Workers that fetch everything as soon as one of them is started. *)
Definition allFetched (t : countTm) (ws : list (peerConn * option countTm)) : countTm * bool :=
  match ws with
  | [] => (t, false)
  | _ => ((0%nat, false), true)
  end.

Definition demoProcessed : Z := 5.

(** Three registered peers; the local chain has heights 0 to 2 and
    total difficulty 20; the master's chain agrees with it up to
    height 1 and goes on to height 5. *)
Definition connMaster : peerConn := mkPeerConn 0 "master" (mkPeer 205 50).
Definition connSlow : peerConn := mkPeerConn 1 "slow" (mkPeer 102 10).
Definition connFast : peerConn := mkPeerConn 2 "fast" (mkPeer 205 30).

Definition idle : @Downloader memChain countTm :=
  RegisterPeer "fast" (mkPeer 205 30)
    (RegisterPeer "slow" (mkPeer 102 10)
       (RegisterPeer "master" (mkPeer 205 50) (NewDownloader [100; 101; 102]))).

Definition remoteHeader (height hash : Z) : BlockHeader := mkHeader (hash - 1) height hash.

(** What the master answers: its head, then the headers from height 2
    down. *)
Definition demoScript : list response :=
  [Headers [remoteHeader 5 205];
   Headers [remoteHeader 2 202; remoteHeader 1 101; remoteHeader 0 100]].

(** The downloader at the points of a session. *)
Definition preparing : @Downloader memChain countTm :=
  set_masterPeer "master" (set_cancelCh ChOpen (set_syncStatus statusPreparing idle)).

Definition fetching : @Downloader memChain countTm :=
  set_syncStatus statusFetching (set_tm (Some (4%nat, false)) preparing).

Definition walkScript : list response :=
  [Headers [remoteHeader 2 202; remoteHeader 1 101; remoteHeader 0 100]].

(** A closed bound [lo ≤ x < hi] on a computed height. *)
Ltac in_range := vm_compute; split; [discriminate | reflexivity].

(** ** C1 *)

Lemma doSynchronise_outcome_witness :
  ∃ d', doSynchronise memCurrentBlock memGetBlockHash countNew countClose countIsDone
          allFetched connMaster 205 50 20 demoScript preparing = Some (None, d') ∧
        fired d' = [DownloaderStartEvent; DownloaderDoneEvent].
Proof.
  destruct (doSynchronise_outcome memCurrentBlock memGetBlockHash countNew countClose
              countIsDone allFetched connMaster 205 50 20 demoScript preparing)
    as [Hcompleted _].
  destruct (Hcompleted (remoteHeader 5 205) walkScript _ 1 [] _ eq_refl eq_refl)
    as (d' & Hrun & Hdone & _).
  exists d'. split; [exact Hrun | exact (Hdone eq_refl)].
Defined.

(** ** C2 *)

(** A call made while a session is fetching fails with
    [errIsSynchronising], and the state it leaves is not [statusNone]. *)
Lemma Synchronise_busy_state_not_none :
  ∃ d', Synchronise memCurrentBlock memGetBlockHash countNew countClose countIsDone
          allFetched "master" 205 50 20 demoScript fetching
        = Some (Some errIsSynchronising, d') ∧
        syncStatus d' ≠ statusNone.
Proof. exists fetching. split; [reflexivity | discriminate]. Qed.

Lemma Synchronise_early_failures_witness :
  Synchronise memCurrentBlock memGetBlockHash countNew countClose countIsDone
    allFetched "master" 205 50 20 demoScript fetching
  = Some (Some errIsSynchronising, fetching) ∧
  ∃ d', Synchronise memCurrentBlock memGetBlockHash countNew countClose countIsDone
          allFetched "nobody" 205 50 20 demoScript idle
        = Some (Some errPeerNotFound, d') ∧
        syncStatus d' = statusNone ∧ peers d' = peers idle.
Proof.
  split.
  - apply (Synchronise_early_failures memCurrentBlock memGetBlockHash countNew countClose
             countIsDone allFetched "master" 205 50 20 demoScript fetching).
    discriminate.
  - apply (Synchronise_early_failures memCurrentBlock memGetBlockHash countNew countClose
             countIsDone allFetched "nobody" 205 50 20 demoScript idle);
      reflexivity.
Defined.

(** ** C3 *)


(** ** C4 *)

(** The master answers with a header above the local head: the walk
    fails with the error of the store, which is neither of the walk's
    own two errors, and no wait or decoding failed. *)
Lemma ancestor_walk_store_failure :
  ∃ d', findCommonAncestorHeight memCurrentBlock memGetBlockHash connMaster 5
          [Headers [remoteHeader 7 207]] preparing
        = Some (Err (errExternal "leveldb: not found"), [], d') ∧
        errExternal "leveldb: not found" ≠ errInvalidAncestor ∧
        errExternal "leveldb: not found" ≠ errMaxForkAncestor ∧
        Forall (λ r, ∃ hs, r = Headers hs) [Headers [remoteHeader 7 207]].
Proof.
  eexists. split; [reflexivity|]. split; [discriminate|]. split; [discriminate|].
  constructor; [by eexists | constructor].
Qed.

(** The master sends four headers where three were asked for, none
    with the local hash: the count of headers compared passes
    [maxFetchAncestry] = 3 without being equal to it, and the walk asks
    again, for -1 headers from a start number that wrapped around. *)
Lemma ancestor_walk_overshoot :
  findCommonAncestorHeight memCurrentBlock memGetBlockHash connMaster 5
    [Headers [remoteHeader 2 302; remoteHeader 1 301; remoteHeader 0 300;
              remoteHeader 0 400]] preparing = None ∧
  ancestorLoop memGetBlockHash connMaster 2 3 4 [WaitErr (errExternal "cancelled")] preparing
  = Some (Err (errExternal "cancelled"), [],
          send connMaster (ReqHeaders EmptyHash (2 ^ 64 - 2) (-1) true) preparing).
Proof. split; reflexivity. Qed.

(** A peer on another chain altogether. *)
Definition strangerBatch : list BlockHeader :=
  [remoteHeader 2 302; remoteHeader 1 301; remoteHeader 0 300].

Lemma ancestor_walk_failures_witness :
  (∃ d', findCommonAncestorHeight memCurrentBlock memGetBlockHash connMaster 5
           ([] ++ Headers [] :: []) preparing
         = Some (Err errInvalidAncestor, [], d')) ∧
  (∃ d', findCommonAncestorHeight memCurrentBlock memGetBlockHash connMaster 5
           ((Headers <$> [strangerBatch]) ++ []) preparing
         = Some (Err errMaxForkAncestor, [], d')) ∧
  (errExternal "leveldb: not found" = errMaxForkAncestor ∨
   errExternal "leveldb: not found" = errInvalidAncestor ∨
   WaitErr (errExternal "leveldb: not found") ∈ [Headers [remoteHeader 7 207]] ∨
   DeserializeErr (errExternal "leveldb: not found") ∈ [Headers [remoteHeader 7 207]] ∨
   ∃ hs h, Headers hs ∈ [Headers [remoteHeader 7 207]] ∧ h ∈ hs ∧
           memGetBlockHash (chain preparing) (Height h)
           = Err (errExternal "leveldb: not found")).
Proof.
  destruct (ancestor_walk_failures memCurrentBlock memGetBlockHash connMaster 5 preparing)
    as (Hempty & Hdeep & Honly); [in_range..|].
  split; [|split].
  - apply Hempty. reflexivity.
  - apply Hdeep; [discriminate | | reflexivity].
    constructor; [|constructor]. split; [discriminate|].
    repeat constructor; eexists; (split; [reflexivity | discriminate]).
  - eapply Honly. reflexivity.
Defined.

(** ** C5 *)

(** A peer with total difficulty 0 registers while the session is
    fetching: it gets a worker all the same. *)
Lemma workers_spawned_witness :
  spawned (RegisterPeer "late" (mkPeer 0 0) fetching)
  = spawned fetching ++ [(mkPeerConn (nextConn fetching) "late" (mkPeer 0 0), tm fetching)] ∧
  ∃ ids ws,
    spawned (startFetching 20 (4%nat, false) preparing) = spawned preparing ++ ws ∧
    (∀ i, i ∈ ids ↔ ∃ c, peers preparing !! i = Some c ∧ 20 < headTD (peer c)) ∧
    length ws = length ids ∧
    (connMaster, Some (4%nat, false)) ∈ ws.
Proof.
  destruct (workers_spawned 20 (4%nat, false) fetching "late" (mkPeer 0 0)) as [_ Hlate].
  split; [apply Hlate; reflexivity|].
  destruct (workers_spawned 20 (4%nat, false) preparing "late" (mkPeer 0 0)) as [Hstart _].
  destruct Hstart as (_ & ids & ws & Hws & _ & Hids & Hone & Hmaster).
  exists ids, ws. split_and!; [exact Hws | exact Hids | | ].
  - symmetry. by eapply Forall2_length.
  - apply Hmaster; [reflexivity | reflexivity].
Defined.

(** ** C6 *)

(** The master's worker with four blocks to fetch. *)
Definition oneTurn (blocks : list Block) (sel : selected) : turn :=
  mkTurn false None (Headers []) None (Ok []) (Ok blocks) sel.

Definition remoteBlock (height hash : Z) : Block := mkBlock hash (remoteHeader height hash).

Definition masterRun (t : countTm) (script : list turn) :=
  peerDownload (Chain := memChain) countIsDone countReqHeaders countReqBlocks
    countDeliverHeaders countDeliverPre countDeliverBlocks countPeerQuit
    connMaster t script fetching.

(** It fetches the blocks and finds the task manager done; its request
    for blocks fails; with the blocks reserved by another worker, it
    waits and sees the cancellation, or its own connection closed. *)
Definition turnsDone : list turn :=
  [oneTurn [remoteBlock 2 202; remoteBlock 3 203; remoteBlock 4 204; remoteBlock 5 205]
     SelIdle].
Definition turnsError : list turn :=
  [mkTurn false None (Headers []) (Some (errExternal "broken pipe")) (Ok []) (Ok []) SelIdle].
Definition turnsCancelled : list turn := [oneTurn [] SelIdle; oneTurn [] SelCancel].
Definition turnsQuit : list turn := [oneTurn [] SelQuit].

Lemma master_exit_cancels_witness :
  (∃ t' d', masterRun (4%nat, false) turnsDone = Some (ExitDone, t', d') ∧
            cancelCh d' = ChClosed) ∧
  (∃ t' d', masterRun (4%nat, false) turnsError = Some (ExitError, t', d') ∧
            cancelCh d' = ChClosed) ∧
  (∃ t' d', masterRun (4%nat, true) turnsCancelled = Some (ExitCancelled, t', d') ∧
            cancelCh d' = ChClosed) ∧
  (∃ t' d', masterRun (4%nat, true) turnsQuit = Some (ExitPeerQuit, t', d') ∧
            cancelCh d' = ChClosed).
Proof.
  split_and!; eexists _, _; (split; [reflexivity|]).
  - eapply (master_exit_cancels countIsDone countReqHeaders countReqBlocks
              countDeliverHeaders countDeliverPre countDeliverBlocks countPeerQuit
              connMaster (4%nat, false) turnsDone fetching); [discriminate | reflexivity..].
  - eapply (master_exit_cancels countIsDone countReqHeaders countReqBlocks
              countDeliverHeaders countDeliverPre countDeliverBlocks countPeerQuit
              connMaster (4%nat, false) turnsError fetching); [discriminate | reflexivity..].
  - eapply (master_exit_cancels countIsDone countReqHeaders countReqBlocks
              countDeliverHeaders countDeliverPre countDeliverBlocks countPeerQuit
              connMaster (4%nat, true) turnsCancelled fetching); [discriminate | reflexivity..].
  - eapply (master_exit_cancels countIsDone countReqHeaders countReqBlocks
              countDeliverHeaders countDeliverPre countDeliverBlocks countPeerQuit
              connMaster (4%nat, true) turnsQuit fetching); [discriminate | reflexivity..].
Defined.

(** ** C7 *)

(** Four head infos handed to the writer: a block the chain has, the
    next block, a block that does not fit, and one more. *)
Definition demoHeap (p : nat) : masterHeadInfo :=
  match p with
  | 0%nat => mkHeadInfo (mkBlock 102 (mkHeader 101 2 102)) 4
  | 1%nat => mkHeadInfo (mkBlock 203 (mkHeader 102 3 203)) 4
  | 2%nat => mkHeadInfo (mkBlock 209 (mkHeader 208 9 209)) 4
  | _ => mkHeadInfo (mkBlock 204 (mkHeader 203 4 204)) 4
  end.

Lemma processBlocks_run_witness :
  ∃ heap' d',
    processBlocks memWriteBlock demoProcessed [0; 1; 2; 3]%nat demoHeap fetching
    = (heap',
       [(block (demoHeap 0), Some ErrBlockAlreadyExist);
        (block (demoHeap 1), None);
        (block (demoHeap 2), Some (errExternal "invalid previous block"))],
       d') ∧
    status (heap' 0%nat) = demoProcessed ∧ status (heap' 1%nat) = demoProcessed ∧
    status (heap' 2%nat) = 4 ∧ status (heap' 3%nat) = 4 ∧
    cancelCh d' = ChClosed ∧
    ∃ done rest log,
      [0; 1; 2; 3]%nat = done ++ rest ∧
      Forall2 (λ h w, w.1 = block (demoHeap h) ∧
                      (w.2 = None ∨ w.2 = Some ErrBlockAlreadyExist)) done log.
Proof.
  eexists _, _. split; [reflexivity|]. split_and!; [reflexivity..|].
  edestruct (processBlocks_run memWriteBlock demoProcessed [0; 1; 2; 3]%nat demoHeap fetching)
    as (done & rest & log & Hsplit & Hlog & _); [reflexivity|].
  by exists done, rest, log.
Defined.

(** ** C8 *)

(** Registering again a peer that is in the table, then unregistering
    it, removes it from the table. *)
Lemma register_unregister_registered :
  peers (UnRegisterPeer "fast" (RegisterPeer "fast" (mkPeer 205 30) idle)) ≠ peers idle.
Proof.
  intros Heq. apply (f_equal (λ m : gmap string peerConn, m !! "fast")) in Heq.
  vm_compute in Heq. discriminate.
Qed.

Lemma register_unregister_fresh_witness :
  peers (UnRegisterPeer "late" (RegisterPeer "late" (mkPeer 205 30) idle)) = peers idle.
Proof. apply register_unregister_fresh. reflexivity. Defined.

(** ** C9 *)

Lemma Synchronise_events_witness :
  (∃ e d', Synchronise memCurrentBlock memGetBlockHash countNew countClose countIsDone
             allFetched "nobody" 205 50 20 demoScript idle = Some (Some e, d') ∧
           (e = errIsSynchronising ∨ e = errPeerNotFound) ∧ fired d' = fired idle) ∧
  (∃ e d', Synchronise memCurrentBlock memGetBlockHash countNew countClose countIsDone
             allFetched "master" 205 50 20 demoScript fetching = Some (Some e, d') ∧
           (e = errIsSynchronising ∨ e = errPeerNotFound) ∧ fired d' = fired fetching) ∧
  ∃ d', Synchronise memCurrentBlock memGetBlockHash countNew countClose countIsDone
          allFetched "master" 205 50 20 demoScript idle = Some (None, d') ∧
        fired d' = fired idle ++ [DownloaderStartEvent; DownloaderDoneEvent].
Proof.
  split_and!.
  - apply (Synchronise_events memCurrentBlock memGetBlockHash countNew countClose
             countIsDone allFetched "nobody" 205 50 20 demoScript idle).
    right. reflexivity.
  - apply (Synchronise_events memCurrentBlock memGetBlockHash countNew countClose
             countIsDone allFetched "master" 205 50 20 demoScript fetching).
    left. discriminate.
  - destruct (Synchronise_events memCurrentBlock memGetBlockHash countNew countClose
                countIsDone allFetched "master" 205 50 20 demoScript idle)
      as [_ Hpast].
    assert (fst <$> Synchronise memCurrentBlock memGetBlockHash countNew countClose
                      countIsDone allFetched "master" 205 50 20 demoScript idle
            = Some None) as Hresult by (vm_compute; reflexivity).
    destruct (Synchronise _ _ _ _ _ _ _ _ _ _ _ _) as [[r d']|] eqn:Hrun; [|discriminate].
    injection Hresult as ->. exists d'. split; [reflexivity|].
    destruct (Hpast connMaster None d') as (d1 & _ & Hfired);
      [reflexivity | vm_compute; reflexivity | reflexivity | exact Hfired].
Defined.

(** ** C10 *)

(** The batch holds the ancestor first and then a header above the
    local head: the walk gives the ancestor, and never asks the store
    about the second header. *)
Lemma ancestor_walk_match_before_missing :
  ∃ d', findCommonAncestorHeight memCurrentBlock memGetBlockHash connMaster 5
          [Headers [remoteHeader 1 101; remoteHeader 7 207]] preparing
        = Some (Ok 1, [], d') ∧
        remoteHeader 7 207 ∈ [remoteHeader 1 101; remoteHeader 7 207] ∧
        memGetBlockHash (chain preparing) (Height (remoteHeader 7 207))
        = Err (errExternal "leveldb: not found").
Proof.
  eexists. split; [reflexivity|]. split; [|reflexivity].
  apply list_elem_of_further, list_elem_of_here.
Qed.

Lemma ancestor_walk_store_error_witness :
  ∃ d', doSynchronise memCurrentBlock memGetBlockHash countNew countClose countIsDone
          allFetched connMaster 205 50 20
          (Headers [remoteHeader 5 205] ::
           [] ++ Headers ([remoteHeader 2 202] ++ remoteHeader 7 207 :: [remoteHeader 1 101])
              :: [])
          preparing
        = Some (Some (errExternal "leveldb: not found"), d') ∧
        fired d' = fired preparing ++ [DownloaderStartEvent; DownloaderFailedEvent].
Proof.
  edestruct (ancestor_walk_store_error memCurrentBlock memGetBlockHash countNew countClose
               countIsDone allFetched connMaster 205 50 20 (Headers [remoteHeader 5 205]) []
               [remoteHeader 2 202] (remoteHeader 7 207) [remoteHeader 1 101] [] preparing)
    as [_ Hsession]; [reflexivity | reflexivity | | reflexivity | exact Hsession].
  constructor; [|constructor]. eexists. split; [reflexivity | discriminate].
Defined.

(** * The further properties on the small instance *)

Lemma idle_tableOk : tableOk idle.
Proof.
  unfold idle. do 3 apply tableOk_RegisterPeer. apply tableOk_NewDownloader.
Qed.

Lemma preparing_tableOk : tableOk preparing.
Proof. by apply (tableOk_ext idle), idle_tableOk. Qed.

Lemma demo_top : Z.min (Height (Header (memCurrentBlock (chain preparing)))) 5 = 2.
Proof. reflexivity. Qed.

(** ** X1 *)

Lemma Cancel_idempotent_witness :
  Cancel (Cancel fetching) = Cancel fetching ∧ Cancel idle = idle ∧
  cancelCh (Cancel fetching) = ChClosed ∧
  tm (Cancel fetching) = tm fetching ∧ masterPeer (Cancel fetching) = masterPeer fetching.
Proof.
  destruct (Cancel_idempotent fetching)
    as (Htwice & _ & Hopen & _ & _ & Hmaster & _ & _ & Htm & _).
  destruct (Cancel_idempotent idle) as (_ & Hnil & _).
  split_and!; [exact Htwice | apply Hnil; discriminate | apply Hopen; reflexivity
              | exact Htm | exact Hmaster].
Defined.

(** ** X2 *)

(** The master answers the height probe with no header at all; or with
    its head, and then with headers of another chain. *)
Lemma doSynchronise_preparation_failure_witness :
  (∃ d', doSynchronise memCurrentBlock memGetBlockHash countNew countClose countIsDone
           allFetched connMaster 205 50 20 [Headers []] preparing
         = Some (Some errInvalidPacketRecved, d') ∧
         spawned d' = spawned preparing ∧ tm d' = tm preparing) ∧
  (∃ d', doSynchronise memCurrentBlock memGetBlockHash countNew countClose countIsDone
           allFetched connMaster 205 50 20
           [Headers [remoteHeader 5 205]; Headers strangerBatch] preparing
         = Some (Some errMaxForkAncestor, d') ∧
         spawned d' = spawned preparing ∧ tm d' = tm preparing).
Proof.
  split.
  - destruct (doSynchronise_preparation_failure memCurrentBlock memGetBlockHash countNew
                countClose countIsDone allFetched connMaster 205 50 20 [Headers []]
                preparing errInvalidPacketRecved)
      as (d' & Hrun & _ & Hsp & Htm & _).
    { left. by eexists _, _. }
    exists d'. split_and!; [exact Hrun | exact Hsp | exact Htm].
  - destruct (doSynchronise_preparation_failure memCurrentBlock memGetBlockHash countNew
                countClose countIsDone allFetched connMaster 205 50 20
                [Headers [remoteHeader 5 205]; Headers strangerBatch]
                preparing errMaxForkAncestor)
      as (d' & Hrun & _ & Hsp & Htm & _).
    { right. eexists _, _, _, _, _. split; reflexivity. }
    exists d'. split_and!; [exact Hrun | exact Hsp | exact Htm].
Defined.

(** ** X3 *)

Lemma Synchronise_errors_witness :
  errPeerNotFound = errIsSynchronising ∨ errPeerNotFound = errPeerNotFound ∨
  errPeerNotFound = errInvalidPacketRecved ∨ errPeerNotFound = errHashNotMatch ∨
  errPeerNotFound = errInvalidAncestor ∨ errPeerNotFound = errMaxForkAncestor ∨
  errPeerNotFound = errSyncErr ∨
  WaitErr errPeerNotFound ∈ demoScript ∨ DeserializeErr errPeerNotFound ∈ demoScript ∨
  ∃ hs h, Headers hs ∈ demoScript ∧ h ∈ hs ∧
          memGetBlockHash (chain idle) (Height h) = Err errPeerNotFound.
Proof.
  eapply (Synchronise_errors memCurrentBlock memGetBlockHash countNew countClose
            countIsDone allFetched "nobody" 205 50 20 demoScript idle).
  reflexivity.
Defined.

(** ** X4 *)

Lemma Synchronise_returns_idle_witness :
  (∃ d', Synchronise memCurrentBlock memGetBlockHash countNew countClose countIsDone
           allFetched "nobody" 205 50 20 demoScript idle
         = Some (Some errPeerNotFound, d') ∧
         syncStatus d' = statusNone ∧ cancelCh d' = ChClosed) ∧
  (∃ r d', Synchronise memCurrentBlock memGetBlockHash countNew countClose countIsDone
             allFetched "master" 205 50 20 demoScript idle = Some (r, d') ∧
           syncStatus d' = statusNone ∧ cancelCh d' ≠ ChOpen ∧ peers d' = peers idle).
Proof.
  split.
  - eexists. split; [reflexivity|].
    edestruct (Synchronise_returns_idle memCurrentBlock memGetBlockHash countNew countClose
                 countIsDone allFetched "nobody" 205 50 20 demoScript idle)
      as (Hs & _ & _ & _ & _ & _ & Hc); [reflexivity | reflexivity |].
    split; [exact Hs | apply Hc; reflexivity].
  - assert (is_Some (fst <$> Synchronise memCurrentBlock memGetBlockHash countNew countClose
                       countIsDone allFetched "master" 205 50 20 demoScript idle))
      as Hsome by (vm_compute; by eexists).
    destruct (Synchronise memCurrentBlock memGetBlockHash countNew countClose countIsDone
                allFetched "master" 205 50 20 demoScript idle) as [[r d']|] eqn:Hrun;
      [|by destruct Hsome].
    destruct (Synchronise_returns_idle memCurrentBlock memGetBlockHash countNew countClose
                countIsDone allFetched "master" 205 50 20 demoScript idle r d')
      as (Hs & Hc & _ & Hp & _); [reflexivity | exact Hrun |].
    exists r, d'. split_and!; [reflexivity | exact Hs | exact Hc | exact Hp].
Defined.

(** ** X5 *)

Definition newDemo : @Downloader memChain countTm := NewDownloader [100; 101; 102].

Lemma tableOk_invariant_witness :
  tableOk (RegisterPeer "master" (mkPeer 205 50) newDemo) ∧
  tableOk (UnRegisterPeer "master" (RegisterPeer "master" (mkPeer 205 50) newDemo)).
Proof.
  destruct (tableOk_invariant memCurrentBlock memGetBlockHash countNew countClose countIsDone
              allFetched [100; 101; 102] newDemo
              "master" (mkPeer 205 50) 205 50 20 demoScript None idle) as [Hnew Hstep].
  destruct (Hstep Hnew) as (Hreg & _).
  split; [exact Hreg|].
  destruct (tableOk_invariant memCurrentBlock memGetBlockHash countNew countClose countIsDone
              allFetched [100; 101; 102] (RegisterPeer "master" (mkPeer 205 50) newDemo)
              "master" (mkPeer 205 50) 205 50 20 demoScript None idle) as [_ Hstep2].
  by destruct (Hstep2 Hreg) as (_ & Hunreg & _).
Defined.

(** ** X6 *)

Lemma RegisterPeer_replaces_witness :
  peers (RegisterPeer "fast" (mkPeer 207 60) idle) !! "fast"
  = Some (mkPeerConn 3 "fast" (mkPeer 207 60)) ∧
  closedConns (RegisterPeer "fast" (mkPeer 207 60) idle) = closedConns idle.
Proof.
  destruct (RegisterPeer_replaces "fast" (mkPeer 207 60) idle connFast idle_tableOk)
    as (Hnew & _ & Hclosed & _); [by vm_compute|].
  split; [exact Hnew | exact Hclosed].
Defined.

(** ** X7 *)

Lemma UnRegisterPeer_closes_witness :
  UnRegisterPeer "nobody" idle = idle ∧
  closedConns (UnRegisterPeer "fast" idle) = connId connFast :: closedConns idle.
Proof.
  destruct (UnRegisterPeer_closes "nobody" idle) as (Hnone & _).
  destruct (UnRegisterPeer_closes "fast" idle) as (_ & Hsome & _).
  split; [apply Hnone; by vm_compute | apply Hsome; by vm_compute].
Defined.

(** ** X8 *)

Definition demoMsg : Message := mkMessage BlockHeadersMsg [].

Lemma DeliverMsg_routing_witness :
  DeliverMsg "nobody" demoMsg idle = None ∧
  DeliverMsg "fast" demoMsg idle = Some (connFast, BlockHeadersMsg, demoMsg) ∧
  DeliverMsg "slow" demoMsg (UnRegisterPeer "fast" idle) = DeliverMsg "slow" demoMsg idle ∧
  (∀ c code m, DeliverMsg "fast" demoMsg idle = Some (c, code, m) → peerID c = "fast").
Proof.
  destruct (DeliverMsg_routing "nobody" "slow" (mkPeer 0 0) demoMsg idle) as (Hnone & _).
  destruct (DeliverMsg_routing "fast" "slow" (mkPeer 0 0) demoMsg idle)
    as (_ & Hsome & _ & _ & Hother & Hid).
  split_and!.
  - apply Hnone. by vm_compute.
  - apply Hsome. by vm_compute.
  - by apply Hother.
  - apply Hid, idle_tableOk.
Defined.

(** ** X9 *)

(** In the middle of a session the call closes the open channel and
    the downloader stays busy; after a [Synchronise] that failed for an
    unknown master, which leaves the channel closed, and on the fresh
    downloader, a later [Synchronise] runs as if the call had not been
    made. *)
Definition afterUnknownMaster : @Downloader memChain countTm :=
  set_syncStatus statusNone
    (set_cancelCh ChClosed
       (set_masterPeer "nobody" (set_cancelCh ChOpen (set_syncStatus statusPreparing idle)))).

Lemma Terminate_then_Synchronise_witness :
  (cancelCh (Terminate fetching) = ChClosed ∧
   syncStatus (Terminate fetching) = statusFetching ∧
   Synchronise memCurrentBlock memGetBlockHash countNew countClose countIsDone
     allFetched "master" 205 50 20 demoScript (Terminate fetching)
   = Some (Some errIsSynchronising, Terminate fetching)) ∧
  (Synchronise memCurrentBlock memGetBlockHash countNew countClose countIsDone
     allFetched "nobody" 205 50 20 demoScript idle
   = Some (Some errPeerNotFound, afterUnknownMaster) ∧
   cancelCh afterUnknownMaster = ChClosed ∧
   Synchronise memCurrentBlock memGetBlockHash countNew countClose countIsDone
     allFetched "master" 205 50 20 demoScript (Terminate afterUnknownMaster)
   = Synchronise memCurrentBlock memGetBlockHash countNew countClose countIsDone
       allFetched "master" 205 50 20 demoScript afterUnknownMaster) ∧
  Synchronise memCurrentBlock memGetBlockHash countNew countClose countIsDone
    allFetched "master" 205 50 20 demoScript (Terminate idle)
  = Synchronise memCurrentBlock memGetBlockHash countNew countClose countIsDone
      allFetched "master" 205 50 20 demoScript idle.
Proof.
  split; [|split].
  - destruct (Terminate_then_Synchronise memCurrentBlock memGetBlockHash countNew countClose
                countIsDone allFetched "master" 205 50 20 demoScript fetching)
      as (Hopen & _ & _ & _ & _ & Hstatus & _ & _ & _ & _ & _ & _ & _ & Hbusy & _).
    split_and!; [apply Hopen; reflexivity | exact Hstatus | apply Hbusy; discriminate].
  - destruct (Terminate_then_Synchronise memCurrentBlock memGetBlockHash countNew countClose
                countIsDone allFetched "master" 205 50 20 demoScript afterUnknownMaster)
      as (_ & _ & _ & _ & _ & _ & _ & _ & _ & _ & _ & _ & _ & _ & Hidle).
    split_and!; [by vm_compute | reflexivity |].
    apply Hidle; [reflexivity|]. exists connMaster. by vm_compute.
  - destruct (Terminate_then_Synchronise memCurrentBlock memGetBlockHash countNew countClose
                countIsDone allFetched "master" 205 50 20 demoScript idle)
      as (_ & _ & _ & _ & _ & _ & _ & _ & _ & _ & _ & _ & _ & _ & Hidle).
    apply Hidle; [reflexivity|]. exists connMaster. by vm_compute.
Defined.

(** ** X10, X11, X12 *)

(** The worker of the peer "fast", with four blocks to fetch. *)
Definition fastRun (t : countTm) (script : list turn) :=
  peerDownload (Chain := memChain) countIsDone countReqHeaders countReqBlocks
    countDeliverHeaders countDeliverPre countDeliverBlocks countPeerQuit
    connFast t script fetching.

Lemma other_worker_never_cancels_witness :
  (∃ t' d', fastRun (4%nat, false) turnsError = Some (ExitError, t', d') ∧
            cancelCh d' = ChOpen) ∧
  (∃ t' d', fastRun (4%nat, true) turnsQuit = Some (ExitPeerQuit, t', d') ∧
            cancelCh d' = ChOpen).
Proof.
  split; eexists _, _; (split; [reflexivity|]).
  - eapply (other_worker_never_cancels countIsDone countReqHeaders countReqBlocks
              countDeliverHeaders countDeliverPre countDeliverBlocks countPeerQuit
              connFast (4%nat, false) turnsError fetching);
      [discriminate | repeat constructor | reflexivity].
  - eapply (other_worker_never_cancels countIsDone countReqHeaders countReqBlocks
              countDeliverHeaders countDeliverPre countDeliverBlocks countPeerQuit
              connFast (4%nat, true) turnsQuit fetching);
      [discriminate | repeat constructor | reflexivity].
Defined.

Lemma worker_exit_witness :
  ∃ t' d', fastRun (4%nat, false) turnsDone = Some (ExitDone, t', d') ∧
           sessionWG d' = sessionWG fetching - 1 ∧ fired d' = fired fetching ∧
           peers d' = peers fetching.
Proof.
  eexists _, _. split; [reflexivity|].
  edestruct (worker_exit countIsDone countReqHeaders countReqBlocks
               countDeliverHeaders countDeliverPre countDeliverBlocks countPeerQuit
               connFast (4%nat, false) turnsDone fetching ExitDone)
    as (_ & Hwg & Hf & _ & Hp & _); [reflexivity|].
  split_and!; [exact Hwg | exact Hf | exact Hp].
Defined.

Lemma worker_requests_witness :
  ∃ t' d' l, fastRun (4%nat, false) turnsDone = Some (ExitDone, t', d') ∧
             sent d' = sent fetching ++ l ∧ Forall (ownRequest connFast) l ∧
             (length l ≤ 2)%nat.
Proof.
  edestruct (worker_requests countIsDone countReqHeaders countReqBlocks
               countDeliverHeaders countDeliverPre countDeliverBlocks countPeerQuit
               connFast (4%nat, false) turnsDone fetching ExitDone)
    as (l & Hs & Hl & Hn); [reflexivity|].
  eexists _, _, l. split; [reflexivity|]. split_and!; [exact Hs | exact Hl | exact Hn].
Defined.

(** ** X13 *)

Lemma workers_counted_witness :
  sessionWG (startFetching 20 (4%nat, false) preparing) - sessionWG preparing
  = Z.of_nat (length (spawned (startFetching 20 (4%nat, false) preparing)))
    - Z.of_nat (length (spawned preparing)) ∧
  spawned (RegisterPeer "late" (mkPeer 0 0) preparing) = spawned preparing.
Proof.
  destruct (workers_counted 20 (4%nat, false) "late" (mkPeer 0 0) preparing)
    as (Hstart & _ & Hnone).
  split; [exact Hstart|]. apply Hnone. discriminate.
Defined.

(** ** X14, X15 *)

Lemma workers_are_registered_witness :
  ∃ ws, spawned (startFetching 20 (4%nat, false) preparing) = spawned preparing ++ ws ∧
        NoDup ((λ w, peerID w.1) <$> ws).
Proof.
  destruct (workers_are_registered 20 (4%nat, false) preparing preparing_tableOk)
    as (ws & Hws & Hnd & _).
  exists ws. split; [exact Hws | exact Hnd].
Defined.

Lemma unregistered_peer_not_started_witness :
  ∃ ws, spawned (startFetching 20 (4%nat, false) (UnRegisterPeer "fast" preparing))
        = spawned preparing ++ ws ∧
        Forall (λ w, peerID w.1 ≠ "fast") ws.
Proof.
  apply (unregistered_peer_not_started 20 (4%nat, false) "fast" preparing preparing_tableOk).
Defined.

(** ** X16 *)

Lemma session_task_range_witness :
  ∃ r d' ws,
    doSynchronise memCurrentBlock memGetBlockHash countNew countClose countIsDone
      allFetched connMaster 205 50 20 demoScript preparing = Some (r, d') ∧
    spawned d' = spawned preparing ++ ws ∧
    Forall (λ w, w.2 = Some (countNew (masterPeer preparing) (u64 (1 + 1))
                               (Height (remoteHeader 5 205)))) ws.
Proof.
  destruct (session_task_range memCurrentBlock memGetBlockHash countNew countClose
              countIsDone allFetched connMaster 205 50 20 demoScript preparing
              (remoteHeader 5 205) walkScript _ 1 [] _ eq_refl eq_refl)
    as (_ & r & d' & ws & Hrun & Hws & Hall).
  exists r, d', ws. split_and!; [exact Hrun | exact Hws | exact Hall].
Defined.

(** ** X17 *)

(** The run of four head infos above makes three calls, for the first
    three head infos in their order, and the third fails for good. *)
Lemma processBlocks_chain_witness :
  ∃ heap' written d',
    processBlocks memWriteBlock demoProcessed [0; 1; 2; 3]%nat demoHeap fetching
    = (heap', written, d') ∧
    length written = 3%nat ∧
    written.*1 = [block (demoHeap 0); block (demoHeap 1); block (demoHeap 2)] ∧
    (∃ b e, last written = Some (b, Some e) ∧ e ≠ ErrBlockAlreadyExist) ∧
    chain d' = chainAfter memWriteBlock (chain fetching) written.*1.
Proof.
  destruct (processBlocks memWriteBlock demoProcessed [0; 1; 2; 3]%nat demoHeap fetching)
    as [[heap' written] d'] eqn:Hrun.
  assert (length written = 3%nat) as Hthree.
  { apply (f_equal (λ r, length r.1.2)) in Hrun. simpl in Hrun. rewrite <- Hrun.
    vm_compute. reflexivity. }
  destruct (processBlocks_chain memWriteBlock demoProcessed [0; 1; 2; 3]%nat demoHeap
              fetching heap' written d' Hrun) as (_ & Hblocks & _ & Hall & Hchain & _).
  exists heap', written, d'.
  split_and!; [reflexivity | exact Hthree | | | exact Hchain].
  - rewrite Hblocks, Hthree. reflexivity.
  - destruct Hall as [Hlen|Hlast]; [|exact Hlast].
    rewrite Hthree in Hlen. discriminate.
Defined.

(** ** X18, X19 *)

Lemma honest_walk_returns_witness :
  is_Some (findCommonAncestorHeight memCurrentBlock memGetBlockHash connMaster 5
             [Headers strangerBatch; WaitErr errSyncErr; WaitErr errSyncErr] preparing).
Proof.
  apply (honest_walk_returns memCurrentBlock memGetBlockHash connMaster 5
           [Headers strangerBatch; WaitErr errSyncErr; WaitErr errSyncErr] preparing);
    [in_range | in_range | | ].
  - rewrite demo_top. split; [|done]. vm_compute. discriminate.
  - rewrite demo_top. vm_compute. discriminate.
Defined.

Lemma honest_walk_requests_witness :
  ∃ l, sent (send connMaster (ReqHeaders EmptyHash 2 3 true) preparing)
       = sent preparing ++ l ∧
       Forall (walkRequest connMaster 2 0) l ∧ Z.of_nat (length l) ≤ 3.
Proof.
  destruct (honest_walk_requests memCurrentBlock memGetBlockHash connMaster 5 walkScript
              preparing (Ok 1) [] (send connMaster (ReqHeaders EmptyHash 2 3 true) preparing))
    as (l & Hs & Hl & Hn); [in_range | in_range | | reflexivity |].
  - rewrite demo_top. split; [|done]. vm_compute. discriminate.
  - exists l. split_and!; [exact Hs | exact Hl | exact Hn].
Defined.

(** ** X21, X22 *)

(** The master's chain: the local one up to height 1, another above. *)
Definition masterChain (h : Z) : BlockHeader :=
  remoteHeader h (if decide (h ≤ 1) then 100 + h else 200 + h).

(** A chain that has nothing in common with the local one. *)
Definition strangerChain (h : Z) : BlockHeader := remoteHeader h (300 + h).

Lemma faithful_walk_finds_ancestor_witness :
  ∃ rest' d',
    findCommonAncestorHeight memCurrentBlock memGetBlockHash connMaster 5
      (faithfulAnswers masterChain 2 3 0 1 ++ []) preparing
    = Some (Ok 1, rest', d').
Proof.
  apply (faithful_walk_finds_ancestor memCurrentBlock memGetBlockHash connMaster 5 preparing
           masterChain 1 1 []);
    [in_range | in_range | discriminate | reflexivity | | | reflexivity | | ];
    rewrite ?demo_top.
  - lia.
  - unfold MaxForkAncestry. lia.
  - intros h Hh. assert (h = 2) as -> by lia.
    eexists. split; [reflexivity | discriminate].
  - unfold MaxHeaderFetch. lia.
Defined.

(** A stranger's chain against the local chain of three blocks: the
    fork is deeper than the three heights compared.  Against a local
    chain of the genesis block only, the answer is 0. *)
Lemma faithful_walk_fork_too_deep_witness :
  (∃ rest' d',
     findCommonAncestorHeight memCurrentBlock memGetBlockHash connMaster 5
       (faithfulAnswers strangerChain 2 3 0 1 ++ []) preparing
     = Some (Err errMaxForkAncestor, rest', d')) ∧
  findCommonAncestorHeight memCurrentBlock memGetBlockHash connMaster 5
    (faithfulAnswers strangerChain 0 1 0 1 ++ []) (set_chain [100] preparing)
  = Some (Ok 0, faithfulAnswers strangerChain 0 1 0 1 ++ [], set_chain [100] preparing).
Proof.
  split.
  - apply (faithful_walk_fork_too_deep memCurrentBlock memGetBlockHash connMaster 5 preparing
             strangerChain 1 []);
      [in_range | in_range | | | discriminate]; rewrite ?demo_top.
    + intros h Hh. unfold MaxForkAncestry in Hh.
      assert (h = 0 ∨ h = 1 ∨ h = 2) as [ -> | [ -> | -> ] ] by lia;
        (eexists; split; [reflexivity | discriminate]).
    + unfold MaxForkAncestry, MaxHeaderFetch. lia.
  - apply (faithful_walk_fork_too_deep memCurrentBlock memGetBlockHash connMaster 5
             (set_chain [100] preparing) strangerChain 1 []);
      [in_range | in_range | | | reflexivity].
    + intros h Hh. simpl in Hh. unfold MaxForkAncestry in Hh.
      assert (h = 0) as -> by lia.
      eexists. split; [reflexivity | discriminate].
    + vm_compute. discriminate.
Defined.
